(** * Table view state: a shallow embedding of [src/components/Table/Table.tsx]

    The component keeps a list of posts, a view state (search text, id-range
    text, sort column and direction, page number), derives the filtered and
    sorted rows from them, and persists the view state as JSON in
    [localStorage].

    Conventions of the embedding:
    - a JavaScript string is its sequence of UTF-16 code units, [list N];
    - a [number] that holds an integer is a [Z], which is exact for the
      magnitudes below [2^53] that ids, pages and array lengths have; the
      [NaN] that [parseInt] may return is [None] in an [option Z];
    - an exception is the [Throw] constructor of [completion];
    - arrays live in a store of cells addressed by references, so that two
      variables can hold the same array. *)

From Stdlib Require Import ZArith NArith List Ascii String Lia Bool Sorted.
From stdpp Require Import base option list gmap.

Import ListNotations.
Local Open Scope Z_scope.

(** ** Strings *)

Abbreviation jsstring := (list N).

(** The code units of an ASCII literal. *)
Definition js (s : string) : jsstring :=
  List.map N_of_ascii (list_ascii_of_string s).

(** The same, with every apostrophe of the literal standing for a double
    quote (code unit 34), which is convenient for JSON texts. *)
Definition jsq (s : string) : jsstring :=
  List.map (fun c => if N.eqb c 39 then 34%N else c) (js s).

Fixpoint str_eqb (a b : jsstring) : bool :=
  match a, b with
  | [], [] => true
  | x :: a', y :: b' => N.eqb x y && str_eqb a' b'
  | _, _ => false
  end.

(** [a < b] on strings: lexicographic order on code units. *)
Fixpoint str_ltb (a b : jsstring) : bool :=
  match a, b with
  | _, [] => false
  | [], _ :: _ => true
  | x :: a', y :: b' =>
      if N.ltb x y then true
      else if N.ltb y x then false
      else str_ltb a' b'
  end.

Fixpoint startsWith (s pre : jsstring) {struct pre} : bool :=
  match pre, s with
  | [], _ => true
  | _ :: _, [] => false
  | p :: pre', c :: s' => N.eqb p c && startsWith s' pre'
  end.

(** [s.includes(sub)] *)
Fixpoint includes (s sub : jsstring) : bool :=
  startsWith s sub ||
  match s with
  | [] => false
  | _ :: s' => includes s' sub
  end.

(** [s.split(sep)] for a one-unit separator: the pieces between the
    occurrences of [sep]; the empty string gives one empty piece. *)
Fixpoint split (sep : N) (s : jsstring) : list jsstring :=
  match s with
  | [] => [[]]
  | c :: s' =>
      if N.eqb c sep then [] :: split sep s'
      else match split sep s' with
           | [] => [[c]]
           | p :: ps => (c :: p) :: ps
           end
  end.

(** ** [parseInt(val, 10)] *)

(** WhiteSpace and LineTerminator code units, which [parseInt] skips at the
    start of its argument. *)
Definition isStrWhiteSpaceChar (c : N) : bool :=
  (N.eqb c 9 || N.eqb c 10 || N.eqb c 11 || N.eqb c 12 || N.eqb c 13 ||
   N.eqb c 32 || N.eqb c 160 || N.eqb c 5760 ||
   (N.leb 8192 c && N.leb c 8202) ||
   N.eqb c 8232 || N.eqb c 8233 || N.eqb c 8239 || N.eqb c 8287 ||
   N.eqb c 12288 || N.eqb c 65279)%N.

Fixpoint trimStart (s : jsstring) : jsstring :=
  match s with
  | c :: s' => if isStrWhiteSpaceChar c then trimStart s' else s
  | [] => []
  end.

Definition isDigit (c : N) : bool := (N.leb 48 c && N.leb c 57)%N.

Definition digitValue (c : N) : Z := Z.of_N c - 48.

(** The longest prefix of decimal digits, and what follows it. *)
Fixpoint takeDigits (s : jsstring) : jsstring * jsstring :=
  match s with
  | c :: s' =>
      if isDigit c
      then let '(ds, rest) := takeDigits s' in (c :: ds, rest)
      else ([], s)
  | [] => ([], [])
  end.

(** The integer a sequence of decimal digits denotes. *)
Definition digitsValue (ds : jsstring) : Z :=
  fold_left (fun acc c => 10 * acc + digitValue c) ds 0.

Definition parseInt10 (val : jsstring) : option Z :=
  let s := trimStart val in
  let '(sign, s) :=
    match s with
    | c :: s' =>
        if N.eqb c 45 then (-1, s')
        else if N.eqb c 43 then (1, s')
        else (1, s)
    | [] => (1, s)
    end in
  match fst (takeDigits s) with
  | [] => None
  | ds => Some (sign * digitsValue ds)
  end.

(** [Math.max(1, Math.min(100, x))]; [NaN] goes through both unchanged. *)
Definition clamp (x : option Z) : option Z :=
  match x with
  | Some v => Some (Z.max 1 (Z.min 100 v))
  | None => None
  end.

(** ** Data *)

Record Post := { id : Z; title : jsstring; body : jsstring }.

Inductive SortField := FieldId | FieldTitle.
Inductive SortOrder := Asc | Desc.

(** [sortField: null] is [None]. *)
Record TableState := {
  searchQuery : jsstring;
  idFilter : jsstring;
  sortField : option SortField;
  sortOrder : SortOrder;
  page : Z
}.

Definition SortField_eqb (a b : SortField) : bool :=
  match a, b with
  | FieldId, FieldId | FieldTitle, FieldTitle => true
  | _, _ => false
  end.

Definition defaultState : TableState :=
  {| searchQuery := []; idFilter := []; sortField := None;
     sortOrder := Asc; page := 1 |}.

Definition itemsPerPage : Z := 8.

(** [Math.ceil(a / b)] for integers [a] and [b > 0]. *)
Definition ceilDiv (a b : Z) : Z := - ((- a) / b).

(** The page count shown by the pager and tested by [handleNextPage]:
    [Math.ceil(filteredData.length / itemsPerPage)]. *)
Definition pageCount (filteredData : list Post) : Z :=
  ceilDiv (Z.of_nat (List.length filteredData)) itemsPerPage.

(** ** State transitions *)

Definition withPage (s : TableState) (p : Z) : TableState :=
  {| searchQuery := searchQuery s; idFilter := idFilter s;
     sortField := sortField s; sortOrder := sortOrder s; page := p |}.

Definition handleNextPage (filteredData : list Post) (state : TableState)
  : TableState :=
  if Z.ltb (page state) (pageCount filteredData)
  then withPage state (page state + 1)
  else state.

Definition handlePrevPage (state : TableState) : TableState :=
  if Z.gtb (page state) 1
  then withPage state (page state - 1)
  else state.

Definition sameField (cur : option SortField) (field : SortField) : bool :=
  match cur with
  | Some f => SortField_eqb f field
  | None => false
  end.

Definition isAsc (o : SortOrder) : bool :=
  match o with Asc => true | Desc => false end.

Definition handleSort (field : SortField) (prevState : TableState)
  : TableState :=
  {| searchQuery := searchQuery prevState;
     idFilter := idFilter prevState;
     sortField := Some field;
     sortOrder :=
       if sameField (sortField prevState) field && isAsc (sortOrder prevState)
       then Desc else Asc;
     page := page prevState |}.

(** The two text fields [handleInputChange] is called with. *)
Inductive InputField := InSearchQuery | InIdFilter.

Definition handleInputChange (field : InputField) (value : jsstring)
    (prevState : TableState) : TableState :=
  match field with
  | InSearchQuery =>
      {| searchQuery := value; idFilter := idFilter prevState;
         sortField := sortField prevState; sortOrder := sortOrder prevState;
         page := 1 |}
  | InIdFilter =>
      {| searchQuery := searchQuery prevState; idFilter := value;
         sortField := sortField prevState; sortOrder := sortOrder prevState;
         page := 1 |}
  end.

(** ** The array store *)

(** A reference to an array; [store] holds the contents of every array
    allocated so far. *)
Definition ref := nat.
Abbreviation store := (list (list Post)).

Definition M (A : Type) : Type := store -> A * store.

#[export] Instance M_ret : MRet M := fun A a h => (a, h).
#[export] Instance M_bind : MBind M :=
  fun A B f m h => let '(a, h') := m h in f a h'.

Definition cell (h : store) (r : ref) : list Post := default [] (h !! r).

Definition readArray (r : ref) : M (list Post) := fun h => (cell h r, h).

Definition newArray (l : list Post) : M ref :=
  fun h => (List.length h, h ++ [l]).

Definition writeArray (r : ref) (l : list Post) : M unit :=
  fun h => (tt, <[r := l]> h).

(** [arr.filter(p)]: a new array; [arr] is left as it is. *)
Definition arrayFilter (r : ref) (p : Post -> bool) : M ref :=
  l ← readArray r; newArray (List.filter p l).

(** Where [x] goes in a list sorted by [cmp]: before the first element it
    does not compare greater than. *)
Fixpoint insertSorted (cmp : Post -> Post -> Z) (x : Post) (l : list Post)
  : list Post :=
  match l with
  | [] => [x]
  | y :: l' =>
      if Z.gtb (cmp x y) 0 then y :: insertSorted cmp x l' else x :: l
  end.

(** The stable sort of a list by a comparator. *)
Definition sortList (cmp : Post -> Post -> Z) (l : list Post) : list Post :=
  foldr (insertSorted cmp) [] l.

(** [arr.sort(cmp)]: sorts [arr] in place and returns [arr] itself. *)
Definition arraySort (r : ref) (cmp : Post -> Post -> Z) : M ref :=
  l ← readArray r; _ ← writeArray r (sortList cmp l); mret r.

(** ** The filter and sort effect *)

(** A value that is [undefined] (outer [None]), [NaN] (inner [None]) or an
    integer. *)
Abbreviation bound := (option (option Z)).

Definition isNaN (x : bound) : bool :=
  match x with
  | Some (Some _) => false
  | _ => true
  end.

(** [a >= b] and [a <= b] with a bound on the right: false when the bound
    is not a number. *)
Definition geBound (a : Z) (b : bound) : bool :=
  match b with
  | Some (Some v) => Z.geb a v
  | _ => false
  end.

Definition leBound (a : Z) (b : bound) : bool :=
  match b with
  | Some (Some v) => Z.leb a v
  | _ => false
  end.

(** [idFilter.split("-").map(val => Math.max(1, Math.min(100, parseInt(val, 10))))] *)
Definition idParts (idFilter : jsstring) : list (option Z) :=
  List.map (fun val => clamp (parseInt10 val)) (split 45 idFilter).

Definition minIdOf (idFilter : jsstring) : bound := idParts idFilter !! 0%nat.
Definition maxIdOf (idFilter : jsstring) : bound := idParts idFilter !! 1%nat.

Definition inIdRange (minId maxId : bound) (item : Post) : bool :=
  geBound (id item) minId && leBound (id item) maxId.

Definition isEmpty (s : jsstring) : bool :=
  match s with [] => true | _ => false end.

(** The comparator handed to [sort]. *)
Definition compareFn (field : SortField) (order : SortOrder) (a b : Post) : Z :=
  let lt := match field with
            | FieldId => Z.ltb (id a) (id b)
            | FieldTitle => str_ltb (title a) (title b)
            end in
  let gt := match field with
            | FieldId => Z.gtb (id a) (id b)
            | FieldTitle => str_ltb (title b) (title a)
            end in
  if lt then (if isAsc order then -1 else 1)
  else if gt then (if isAsc order then 1 else -1)
  else 0.

Section Engine.

(** [String.prototype.toLowerCase], the Unicode lower-casing of the
    platform. *)
Variable toLowerCase : jsstring -> jsstring.

Definition matchesQuery (query : jsstring) (item : Post) : bool :=
  includes (toLowerCase (title item)) (toLowerCase query) ||
  includes (toLowerCase (body item)) (toLowerCase query).

(** The body of the effect that depends on [data] and [state]; its result
    is the array handed to [setFilteredData]. *)
Definition filterEffect (data : ref) (state : TableState) : M ref :=
  filtered ←
    (if negb (isEmpty (searchQuery state))
     then arrayFilter data (matchesQuery (searchQuery state))
     else mret data);
  let minId := minIdOf (idFilter state) in
  let maxId := maxIdOf (idFilter state) in
  filtered ←
    (if negb (isNaN minId) && negb (isNaN maxId)
     then arrayFilter filtered (inIdRange minId maxId)
     else mret filtered);
  filtered ←
    match sortField state with
    | Some field => arraySort filtered (compareFn field (sortOrder state))
    | None => mret filtered
    end;
  mret filtered.

(** The three steps on the contents alone. *)
Definition textStep (state : TableState) (l : list Post) : list Post :=
  if negb (isEmpty (searchQuery state))
  then List.filter (matchesQuery (searchQuery state)) l
  else l.

Definition idStep (idFilter : jsstring) (l : list Post) : list Post :=
  let minId := minIdOf idFilter in
  let maxId := maxIdOf idFilter in
  if negb (isNaN minId) && negb (isNaN maxId)
  then List.filter (inIdRange minId maxId) l
  else l.

Definition sortStep (state : TableState) (l : list Post) : list Post :=
  match sortField state with
  | Some field => sortList (compareFn field (sortOrder state)) l
  | None => l
  end.

Definition computeView (records : list Post) (state : TableState)
  : list Post :=
  sortStep state (idStep (idFilter state) (textStep state records)).

End Engine.

(** A lower-casing of the letters A to Z that leaves every other code unit
    as it is; it agrees with the platform's on ASCII text. *)
Definition asciiLower (s : jsstring) : jsstring :=
  List.map (fun c => if (N.leb 65 c && N.leb c 90)%N then (c + 32)%N else c) s.

(** ** JSON *)

Inductive exn := SyntaxError.

Inductive completion (A : Type) :=
| Return (a : A)
| Throw (e : exn).
Arguments Return {A} a.
Arguments Throw {A} e.

(** The value [mantissa * 10 ^ exponent] of a numeric literal, kept exact
    and in lowest terms: [exponent <= 0], and [mantissa] is a multiple of
    ten only when [exponent = 0].  The platform rounds this value to the
    nearest double; an integer below [2^53] in magnitude is its own
    double. *)
Record jsnumber := { mantissa : Z; exponent : Z }.

Definition ofInt (z : Z) : jsnumber := {| mantissa := z; exponent := 0 |}.

#[local] Unset Elimination Schemes.
Inductive json :=
| JNull
| JBool (b : bool)
| JNum (n : jsnumber)
| JStr (s : jsstring)
| JArr (elements : list json)
| JObj (members : list (jsstring * json)).
#[local] Set Elimination Schemes.

(** *** Writing *)

Definition hexDigit (n : N) : N :=
  if N.ltb n 10 then (48 + n)%N else (87 + n)%N.

(** [\uXXXX] with lower-case digits *)
Definition unicodeEscape (c : N) : jsstring :=
  [92; 117; hexDigit (c / 4096); hexDigit ((c / 256) mod 16);
   hexDigit ((c / 16) mod 16); hexDigit (c mod 16)]%N.

Definition isHighSurrogate (c : N) : bool := (N.leb 55296 c && N.leb c 56319)%N.
Definition isLowSurrogate (c : N) : bool := (N.leb 56320 c && N.leb c 57343)%N.

(** One code unit that is not a leading surrogate. *)
Definition escapeUnit (c : N) : jsstring :=
  if N.eqb c 8 then [92; 98]%N
  else if N.eqb c 9 then [92; 116]%N
  else if N.eqb c 10 then [92; 110]%N
  else if N.eqb c 12 then [92; 102]%N
  else if N.eqb c 13 then [92; 114]%N
  else if N.eqb c 34 then [92; 34]%N
  else if N.eqb c 92 then [92; 92]%N
  else if N.ltb c 32 || isLowSurrogate c then unicodeEscape c
  else [c].

(** The characters between the quotes: a surrogate pair is written as it
    is, a surrogate on its own as an escape. *)
Fixpoint quoteBody (s : jsstring) : jsstring :=
  match s with
  | [] => []
  | c :: r =>
      if isHighSurrogate c then
        match r with
        | d :: r' =>
            if isLowSurrogate d then c :: d :: quoteBody r'
            else unicodeEscape c ++ quoteBody r
        | [] => unicodeEscape c
        end
      else escapeUnit c ++ quoteBody r
  end.

Definition quote (s : jsstring) : jsstring := [34%N] ++ quoteBody s ++ [34%N].

(** The decimal digits of [n >= 0], least significant first. *)
Fixpoint digitsRev (fuel : nat) (n : Z) : jsstring :=
  match fuel with
  | O => []
  | S fuel' =>
      if Z.ltb n 10 then [Z.to_N (48 + n)]
      else Z.to_N (48 + n mod 10) :: digitsRev fuel' (n / 10)
  end.

Definition digitsOf (n : Z) : jsstring :=
  rev (digitsRev (S (Z.to_nat (Z.log2 n))) n).

(** [String(z)] for an integer [z] that is its own double (any magnitude
    below [2^53]): a minus sign if negative, then all the digits. *)
Definition numberToString (z : Z) : jsstring :=
  if Z.ltb z 0 then 45%N :: digitsOf (- z) else digitsOf z.

Definition sortFieldName (f : SortField) : jsstring :=
  match f with FieldId => js "id" | FieldTitle => js "title" end.

Definition sortOrderName (o : SortOrder) : jsstring :=
  match o with Asc => js "asc" | Desc => js "desc" end.

(** The five properties of a [TableState], in the order the object literal
    gives them. *)
Definition stringifyMembers (value : TableState) : jsstring :=
  quote (js "searchQuery") ++ [58%N] ++ quote (searchQuery value) ++
  [44%N] ++ quote (js "idFilter") ++ [58%N] ++ quote (idFilter value) ++
  [44%N] ++ quote (js "sortField") ++ [58%N] ++
    match sortField value with
    | Some f => quote (sortFieldName f)
    | None => js "null"
    end ++
  [44%N] ++ quote (js "sortOrder") ++ [58%N] ++
    quote (sortOrderName (sortOrder value)) ++
  [44%N] ++ quote (js "page") ++ [58%N] ++ numberToString (page value).

(** [JSON.stringify(value)] for a [TableState]. *)
Definition JSON_stringify (value : TableState) : jsstring :=
  [123%N] ++ stringifyMembers value ++ [125%N].

(** The object a [TableState] is at run time. *)
Definition valueOfState (s : TableState) : json :=
  JObj [ (js "searchQuery", JStr (searchQuery s));
         (js "idFilter", JStr (idFilter s));
         (js "sortField",
           match sortField s with
           | Some f => JStr (sortFieldName f)
           | None => JNull
           end);
         (js "sortOrder", JStr (sortOrderName (sortOrder s)));
         (js "page", JNum (ofInt (page s))) ].

(** *** Reading *)

Inductive parsed (A : Type) :=
| Parsed (a : A) (rest : jsstring)
| Malformed
| OutOfFuel.
Arguments Parsed {A} a rest.
Arguments Malformed {A}.
Arguments OutOfFuel {A}.

Definition isJsonWhiteSpace (c : N) : bool :=
  (N.eqb c 9 || N.eqb c 10 || N.eqb c 13 || N.eqb c 32)%N.

Fixpoint skipWs (s : jsstring) : jsstring :=
  match s with
  | c :: s' => if isJsonWhiteSpace c then skipWs s' else s
  | [] => []
  end.

Definition hexValue (c : N) : option N :=
  if (N.leb 48 c && N.leb c 57)%N then Some (c - 48)%N
  else if (N.leb 97 c && N.leb c 102)%N then Some (c - 87)%N
  else if (N.leb 65 c && N.leb c 70)%N then Some (c - 55)%N
  else None.

Definition readHex4 (h1 h2 h3 h4 : N) : option N :=
  match hexValue h1, hexValue h2, hexValue h3, hexValue h4 with
  | Some a, Some b, Some c, Some d => Some (((a * 16 + b) * 16 + c) * 16 + d)%N
  | _, _, _, _ => None
  end.

(** The character a one-letter escape stands for. *)
Definition unescape (e : N) : option N :=
  if N.eqb e 34 then Some 34%N
  else if N.eqb e 92 then Some 92%N
  else if N.eqb e 47 then Some 47%N
  else if N.eqb e 98 then Some 8%N
  else if N.eqb e 102 then Some 12%N
  else if N.eqb e 110 then Some 10%N
  else if N.eqb e 114 then Some 13%N
  else if N.eqb e 116 then Some 9%N
  else None.

Definition pushUnit (c : N) (r : option (jsstring * jsstring))
  : option (jsstring * jsstring) :=
  match r with
  | Some (str, rest) => Some (c :: str, rest)
  | None => None
  end.

(** A string literal after its opening quote: the string and what follows
    the closing quote. *)
Fixpoint readString (s : jsstring) : option (jsstring * jsstring) :=
  match s with
  | [] => None
  | c :: r =>
      if N.eqb c 34 then Some ([], r)
      else if N.eqb c 92 then
        match r with
        | [] => None
        | e :: r' =>
            if N.eqb e 117 then
              match r' with
              | h1 :: h2 :: h3 :: h4 :: r'' =>
                  match readHex4 h1 h2 h3 h4 with
                  | Some u => pushUnit u (readString r'')
                  | None => None
                  end
              | _ => None
              end
            else
              match unescape e with
              | Some u => pushUnit u (readString r')
              | None => None
              end
        end
      else if N.ltb c 32 then None
      else pushUnit c (readString r)
  end.

(** Removes the factors of ten a negative exponent allows. *)
Fixpoint stripZeros (fuel : nat) (m e : Z) : jsnumber :=
  match fuel with
  | O => {| mantissa := m; exponent := e |}
  | S fuel' =>
      if Z.ltb e 0 && Z.eqb (m mod 10) 0
      then stripZeros fuel' (m / 10) (e + 1)
      else {| mantissa := m; exponent := e |}
  end.

Definition normalize (digits : nat) (m e : Z) : jsnumber :=
  if Z.eqb m 0 then ofInt 0
  else if Z.leb 0 e then ofInt (m * 10 ^ e)
  else stripZeros digits m e.

(** The integer part of a number: a single zero, or digits that do not
    start with zero. *)
Definition readIntPart (s : jsstring) : option (jsstring * jsstring) :=
  match s with
  | c :: r =>
      if N.eqb c 48 then Some ([c], r)
      else if isDigit c then Some (takeDigits s)
      else None
  | [] => None
  end.

(** The optional fraction: its digits (none when there is no fraction). *)
Definition readFraction (s : jsstring) : option (jsstring * jsstring) :=
  match s with
  | c :: r =>
      if N.eqb c 46 then
        match takeDigits r with
        | ([], _) => None
        | (ds, rest) => Some (ds, rest)
        end
      else Some ([], s)
  | [] => Some ([], s)
  end.

(** The optional exponent: its value (zero when there is no exponent). *)
Definition readExponent (s : jsstring) : option (Z * jsstring) :=
  match s with
  | c :: r =>
      if N.eqb c 101 || N.eqb c 69 then
        let '(sign, r) :=
          match r with
          | d :: r' =>
              if N.eqb d 45 then (-1, r')
              else if N.eqb d 43 then (1, r')
              else (1, r)
          | [] => (1, r)
          end in
        match takeDigits r with
        | ([], _) => None
        | (ds, rest) => Some (sign * digitsValue ds, rest)
        end
      else Some (0, s)
  | [] => Some (0, s)
  end.

Definition readNumber (s : jsstring) : option (jsnumber * jsstring) :=
  let '(sign, s) :=
    match s with
    | c :: r => if N.eqb c 45 then (-1, r) else (1, s)
    | [] => (1, s)
    end in
  match readIntPart s with
  | Some (ids, s) =>
      match readFraction s with
      | Some (fds, s) =>
          match readExponent s with
          | Some (e, s) =>
              Some (normalize (List.length ids + List.length fds)
                      (sign * digitsValue (ids ++ fds))
                      (e - Z.of_nat (List.length fds)), s)
          | None => None
          end
      | None => None
      end
  | None => None
  end.

(** Sets property [k] of an object under construction: a repeated name
    keeps its place and takes the later value. *)
Fixpoint setMember (k : jsstring) (v : json) (members : list (jsstring * json))
  : list (jsstring * json) :=
  match members with
  | [] => [(k, v)]
  | (k', v') :: rest =>
      if str_eqb k' k then (k', v) :: rest
      else (k', v') :: setMember k v rest
  end.

(** The elements of an array after its opening bracket, the first element
    being there; [pv] reads one value. *)
Fixpoint parseElements (pv : jsstring -> parsed json) (fuel : nat)
    (s : jsstring) (acc : list json) : parsed json :=
  match fuel with
  | O => OutOfFuel
  | S fuel' =>
      match pv s with
      | Parsed v r =>
          match skipWs r with
          | c :: r' =>
              if N.eqb c 44
              then parseElements pv fuel' (skipWs r') (acc ++ [v])
              else if N.eqb c 93 then Parsed (JArr (acc ++ [v])) r'
              else Malformed
          | [] => Malformed
          end
      | Malformed => Malformed
      | OutOfFuel => OutOfFuel
      end
  end.

(** The members of an object after its opening brace, the first member
    being there. *)
Fixpoint parseMembers (pv : jsstring -> parsed json) (fuel : nat)
    (s : jsstring) (acc : list (jsstring * json)) : parsed json :=
  match fuel with
  | O => OutOfFuel
  | S fuel' =>
      match s with
      | q :: r =>
          if N.eqb q 34 then
            match readString r with
            | Some (k, r1) =>
                match skipWs r1 with
                | c :: r2 =>
                    if N.eqb c 58 then
                      match pv (skipWs r2) with
                      | Parsed v r3 =>
                          match skipWs r3 with
                          | d :: r4 =>
                              if N.eqb d 44
                              then parseMembers pv fuel' (skipWs r4)
                                     (setMember k v acc)
                              else if N.eqb d 125
                              then Parsed (JObj (setMember k v acc)) r4
                              else Malformed
                          | [] => Malformed
                          end
                      | Malformed => Malformed
                      | OutOfFuel => OutOfFuel
                      end
                    else Malformed
                | [] => Malformed
                end
            | None => Malformed
            end
          else Malformed
      | [] => Malformed
      end
  end.

(** One JSON value at the start of [s], which does not start with white
    space. *)
Fixpoint parseValue (fuel : nat) (s : jsstring) : parsed json :=
  match fuel with
  | O => OutOfFuel
  | S fuel' =>
      match s with
      | [] => Malformed
      | c :: r =>
          if N.eqb c 123 then
            match skipWs r with
            | d :: r' =>
                if N.eqb d 125 then Parsed (JObj []) r'
                else parseMembers (parseValue fuel') fuel' (d :: r') []
            | [] => Malformed
            end
          else if N.eqb c 91 then
            match skipWs r with
            | d :: r' =>
                if N.eqb d 93 then Parsed (JArr []) r'
                else parseElements (parseValue fuel') fuel' (d :: r') []
            | [] => Malformed
            end
          else if N.eqb c 34 then
            match readString r with
            | Some (str, r') => Parsed (JStr str) r'
            | None => Malformed
            end
          else if startsWith s (js "null") then Parsed JNull (drop 4 s)
          else if startsWith s (js "true") then Parsed (JBool true) (drop 4 s)
          else if startsWith s (js "false") then Parsed (JBool false) (drop 5 s)
          else
            match readNumber s with
            | Some (n, r') => Parsed (JNum n) r'
            | None => Malformed
            end
      end
  end.

(** [JSON.parse(text)]: one value between optional white space, or a
    [SyntaxError]. *)
Definition JSON_parse (text : jsstring) : completion json :=
  match parseValue (S (List.length text)) (skipWs text) with
  | Parsed v rest =>
      match skipWs rest with
      | [] => Return v
      | _ :: _ => Throw SyntaxError
      end
  | Malformed => Throw SyntaxError
  | OutOfFuel => Throw SyntaxError
  end.

(** ** Persistence *)

(** The contents of [localStorage]. *)
Abbreviation Storage := (gmap jsstring jsstring).

Definition saveToLocalStorage (key : jsstring) (value : TableState)
    (localStorage : Storage) : Storage :=
  <[key := JSON_stringify value]> localStorage.

(** [getItem] gives [null] for a missing key; [null] and the empty string
    are the two values the conditional takes as false. *)
Definition loadFromLocalStorage (key : jsstring) (defaultValue : TableState)
    (localStorage : Storage) : completion json :=
  match localStorage !! key with
  | Some storedValue =>
      if negb (isEmpty storedValue) then JSON_parse storedValue
      else Return (valueOfState defaultValue)
  | None => Return (valueOfState defaultValue)
  end.

(** ** What the effect leaves in the store *)

Section Outcome.

Variable toLowerCase : jsstring -> jsstring.

(** The contents of [filteredData] once the effect has run. *)
Definition filteredDataAfter (h : store) (data : ref) (state : TableState)
  : list Post :=
  let '(filtered, h') := filterEffect toLowerCase data state h in
  cell h' filtered.

(** The contents of [data] once the effect has run. *)
Definition dataAfter (h : store) (data : ref) (state : TableState)
  : list Post :=
  let '(_, h') := filterEffect toLowerCase data state h in
  cell h' data.

End Outcome.

(** A value is a [TableState] when it is the object of one. *)
Definition isTableState (v : json) : Prop :=
  exists s : TableState, v = valueOfState s.

Definition flipOrder (o : SortOrder) : SortOrder :=
  match o with Asc => Desc | Desc => Asc end.

(** [Math.max(1, Math.min(100, v))] on an integer. *)
Definition clampZ (v : Z) : Z := Z.max 1 (Z.min 100 v).

(** Twenty rows with the ids 1 to 20. *)
Definition posts20 : list Post :=
  List.map (fun i => {| id := Z.of_nat i; title := js "t"; body := js "b" |})
    (seq 1 20).

(** A character that cannot continue a number. *)
Definition endsNumber (c : N) : Prop :=
  isDigit c = false /\ c <> 46%N /\ c <> 101%N /\ c <> 69%N.

(** [pv] neither runs out of fuel nor fails to consume on inputs shorter
    than [n]. *)
Definition consumes (pv : jsstring -> parsed json) (n : nat) : Prop :=
  forall s, (List.length s < n)%nat ->
    pv s <> OutOfFuel /\
    forall v r, pv s = Parsed v r -> (List.length r < List.length s)%nat.

(** ** The visible page *)

(** The index [arr.slice] takes for an argument [i] on an array of [len]
    elements: a negative one counts from the end, and both are kept within
    the array. *)
Definition relativeIndex (len i : Z) : Z :=
  if Z.ltb i 0 then Z.max (len + i) 0 else Z.min i len.

(** [arr.slice(start, stop)] *)
Definition slice (start stop : Z) (arr : list Post) : list Post :=
  let len := Z.of_nat (List.length arr) in
  let k := relativeIndex len start in
  let final := relativeIndex len stop in
  take (Z.to_nat (final - k)) (drop (Z.to_nat k) arr).

Definition currentData (filteredData : list Post) (state : TableState)
  : list Post :=
  slice ((page state - 1) * itemsPerPage) (page state * itemsPerPage)
    filteredData.

(** The [disabled] attribute of the two pager buttons. *)
Definition prevDisabled (state : TableState) : bool :=
  Z.eqb (page state) 1.

Definition nextDisabled (filteredData : list Post) (state : TableState) : bool :=
  Z.eqb (page state) (pageCount filteredData).

(** The page numbers 1, ..., [n]. *)
Definition pageNumbers (n : Z) : list Z :=
  List.map (fun i => Z.of_nat i + 1) (seq 0 (Z.to_nat n)).

(** ** The two inputs *)

(** [value.replace(/[^0-9-]/g, "")] *)
Definition keepDigitsAndDashes (value : jsstring) : jsstring :=
  List.filter (fun c => isDigit c || N.eqb c 45) value.

(** The [onChange] handler of the id filter input. *)
Definition onIdFilterChange (value : jsstring) (prevState : TableState)
  : TableState :=
  handleInputChange InIdFilter (keepDigitsAndDashes value) prevState.

(** The [onChange] handler of the search input. *)
Definition onSearchChange (value : jsstring) (prevState : TableState)
  : TableState :=
  handleInputChange InSearchQuery value prevState.

(** ** The search parameters *)

(** The object handed to [setSearchParams], as its entries in order. *)
Definition searchParamsOf (state : TableState) : list (jsstring * jsstring) :=
  [ (js "searchQuery", searchQuery state);
    (js "idFilter", idFilter state);
    (js "sortField",
      match sortField state with
      | Some f => sortFieldName f
      | None => []
      end);
    (js "sortOrder", sortOrderName (sortOrder state));
    (js "page", numberToString (page state)) ].

(** The effect that depends on [state]: the new storage and the new search
    parameters. *)
Definition syncEffect (state : TableState)
    (localStorage : gmap jsstring jsstring)
  : gmap jsstring jsstring * list (jsstring * jsstring) :=
  (saveToLocalStorage (js "tableState") state localStorage,
   searchParamsOf state).

(** ** Fetching *)

(** An exception value: its [name] and its [message]. *)
Record JsError := { errName : jsstring; errMessage : jsstring }.

(** What [response.json()] settles to. *)
Inductive Body :=
| BodyRows (rows : list Post)
| BodyRejects (err : JsError).

(** What [fetch(url)] settles to. *)
Inductive FetchResult :=
| FetchRejects (err : JsError)
| FetchResponds (ok : bool) (status : Z) (statusText : jsstring) (body : Body).

(** The part of the component state the fetch writes. *)
Record Component := {
  data : ref;
  filteredData : ref;
  loading : bool;
  error : option jsstring
}.

(** The message for a failed connection. *)
Definition networkMessage : jsstring :=
  [1055; 1088; 1086; 1073; 1083; 1077; 1084; 1099; 32; 1089; 32; 1087; 1086;
   1076; 1082; 1083; 1102; 1095; 1077; 1085; 1080; 1077; 1084; 32; 1082; 32;
   1089; 1077; 1090; 1080; 46; 32; 1055; 1088; 1086; 1074; 1077; 1088; 1100;
   1090; 1077; 32; 1080; 1085; 1090; 1077; 1088; 1085; 1077; 1090; 46]%N.

(** The message for an error that has none of its own. *)
Definition fallbackMessage : jsstring :=
  [1053; 1077; 32; 1091; 1076; 1072; 1083; 1086; 1089; 1100; 32; 1087; 1086;
   1083; 1091; 1095; 1080; 1090; 1100; 32; 1076; 1072; 1085; 1085; 1099; 1077;
   46]%N.

(** [new Error(`HTTP Error: ${status} ${statusText}`)] *)
Definition httpError (status : Z) (statusText : jsstring) : JsError :=
  {| errName := js "Error";
     errMessage :=
       js "HTTP Error: " ++ numberToString status ++ js " " ++ statusText |}.

(** The [try] block: the rows it ends with, or what it throws. *)
Definition tryFetch (r : FetchResult) : list Post + JsError :=
  match r with
  | FetchRejects err => inr err
  | FetchResponds ok status statusText body =>
      if negb ok then inr (httpError status statusText)
      else match body with
           | BodyRows rows => inl rows
           | BodyRejects err => inr err
           end
  end.

(** The [catch] block: the text given to [setError]. *)
Definition catchMessage (err : JsError) : jsstring :=
  if str_eqb (errName err) (js "TypeError") then networkMessage
  else if isEmpty (errMessage err) then fallbackMessage
  else errMessage err.

(** [fetchData], from its call to the end of its [finally] block, for a
    fetch that settles to [r]. *)
Definition fetchData (r : FetchResult) (c : Component) : M Component :=
  match tryFetch r with
  | inl rows =>
      result ← newArray rows;
      mret {| data := result; filteredData := result;
              loading := false; error := None |}
  | inr err =>
      mret {| data := data c; filteredData := filteredData c;
              loading := false; error := Some (catchMessage err) |}
  end.



(** Orders by the comparator. *)
Definition notAfter (cmp : Post -> Post -> Z) (a b : Post) : Prop :=
  cmp a b <= 0.

(** A row passes the filters of [state]. *)
Definition passes (toLowerCase : jsstring -> jsstring) (state : TableState)
    (item : Post) : bool :=
  (isEmpty (searchQuery state) || matchesQuery toLowerCase (searchQuery state) item)
  && (isNaN (minIdOf (idFilter state)) || isNaN (maxIdOf (idFilter state))
      || inIdRange (minIdOf (idFilter state)) (maxIdOf (idFilter state)) item).

(** The page is one of the pages of the rows shown, the first one when no
    row is shown. *)
Definition pageInRange (filteredData : list Post) (state : TableState) : Prop :=
  1 <= page state <= Z.max 1 (pageCount filteredData).

(** [a] may stand before [b] among rows sorted by [field] in the order
    [order]. *)
Definition inOrder (field : SortField) (order : SortOrder) (a b : Post) : Prop :=
  match field, order with
  | FieldId, Asc => id a <= id b
  | FieldId, Desc => id b <= id a
  | FieldTitle, Asc => str_ltb (title b) (title a) = false
  | FieldTitle, Desc => str_ltb (title a) (title b) = false
  end.

(** [item] has the value of [other] in the column [field]. *)
Definition sameKey (field : SortField) (other item : Post) : bool :=
  match field with
  | FieldId => Z.eqb (id item) (id other)
  | FieldTitle => str_eqb (title item) (title other)
  end.

Section Rerun.

Variable toLowerCase : jsstring -> jsstring.

(** The store once the effect has run. *)
Definition storeAfter (h : store) (data : ref) (state : TableState) : store :=
  snd (filterEffect toLowerCase data state h).

(** The array the effect hands to [setFilteredData]. *)
Definition filteredRefAfter (h : store) (data : ref) (state : TableState) : ref :=
  fst (filterEffect toLowerCase data state h).

End Rerun.

(** A filter is in force: a search text, or an id range with two numbers. *)
Definition filtering (state : TableState) : bool :=
  negb (isEmpty (searchQuery state))
  || (negb (isNaN (minIdOf (idFilter state)))
      && negb (isNaN (maxIdOf (idFilter state)))).

(** Five rows with the ids 99 to 103. *)
Definition posts_99_to_103 : list Post :=
  List.map (fun i => {| id := Z.of_nat i; title := js "t"; body := js "b" |})
    (seq 99 5).

(** * Properties *)

(** ** Page count *)

Lemma ceilDiv_bounds (a b : Z) :
  0 < b -> b * (ceilDiv a b - 1) < a <= b * ceilDiv a b.
Proof.
  intros Hb. unfold ceilDiv.
  pose proof (Z.div_mod (- a) b ltac:(lia)) as Hdm.
  pose proof (Z.mod_pos_bound (- a) b Hb) as Hm.
  lia.
Qed.

Lemma ceilDiv_unique (a b k : Z) :
  0 < b -> b * (k - 1) < a <= b * k -> ceilDiv a b = k.
Proof.
  intros Hb Hk. pose proof (ceilDiv_bounds a b Hb) as Hc. nia.
Qed.

Lemma pageCount_nil : pageCount [] = 0.
Proof. reflexivity. Qed.

Lemma pageCount_pos (l : list Post) : l <> [] -> 1 <= pageCount l.
Proof.
  intros Hl. unfold pageCount.
  pose proof (ceilDiv_bounds (Z.of_nat (List.length l)) itemsPerPage eq_refl) as Hc.
  destruct l as [|x l]; [congruence|].
  cbn [List.length] in *. unfold itemsPerPage in *. lia.
Qed.

(** ** The store *)

Lemma cell_alloc (h : store) (l : list Post) :
  cell (h ++ [l]) (List.length h) = l.
Proof. unfold cell. by rewrite list_lookup_middle. Qed.

Lemma cell_alloc_old (h : store) (l : list Post) (r : ref) :
  (r < List.length h)%nat -> cell (h ++ [l]) r = cell h r.
Proof. intros Hr. unfold cell. by rewrite lookup_app_l. Qed.

Lemma cell_write (h : store) (l : list Post) (r : ref) :
  (r < List.length h)%nat -> cell (<[r := l]> h) r = l.
Proof. intros Hr. unfold cell. by rewrite list_lookup_insert_eq. Qed.

Lemma cell_write_other (h : store) (l : list Post) (r r' : ref) :
  r <> r' -> cell (<[r := l]> h) r' = cell h r'.
Proof. intros Hr. unfold cell. by rewrite list_lookup_insert_ne. Qed.

Ltac run_effect :=
  unfold filterEffect, arrayFilter, arraySort, readArray, newArray, writeArray;
  unfold mbind, mret, M_bind, M_ret.

Ltac cells :=
  repeat first
    [ rewrite cell_alloc
    | rewrite cell_write by (rewrite ?length_app; simpl; lia)
    | rewrite cell_alloc_old by (rewrite ?length_app; simpl; lia)
    | rewrite cell_write_other by (rewrite ?length_app; simpl; lia) ].

Section StoreFacts.

Variable toLowerCase : jsstring -> jsstring.

(** What [setFilteredData] receives holds the filtered and sorted
    contents of [data]. *)
Lemma filteredDataAfter_computeView (h : store) (data : ref) (state : TableState) :
  (data < List.length h)%nat ->
  filteredDataAfter toLowerCase h data state
  = computeView toLowerCase (cell h data) state.
Proof.
  intros Hd. unfold filteredDataAfter, computeView, sortStep, idStep, textStep.
  run_effect.
  destruct (negb (isEmpty (searchQuery state)));
    destruct (negb (isNaN (minIdOf (idFilter state)))
              && negb (isNaN (maxIdOf (idFilter state))));
    destruct (sortField state); simpl; cells; reflexivity.
Qed.

(** When a filter is in force the rows are sorted in a copy and [data]
    keeps its contents. *)
Lemma dataAfter_filtering (h : store) (data : ref) (state : TableState) :
  (data < List.length h)%nat ->
  searchQuery state <> [] \/
    (isNaN (minIdOf (idFilter state)) = false /\
     isNaN (maxIdOf (idFilter state)) = false) ->
  dataAfter toLowerCase h data state = cell h data.
Proof.
  intros Hd Hf. unfold dataAfter. run_effect.
  destruct (searchQuery state) as [|c q] eqn:Hq;
    destruct (isNaN (minIdOf (idFilter state))) eqn:Hmin;
    destruct (isNaN (maxIdOf (idFilter state))) eqn:Hmax;
    destruct (sortField state); simpl; cells; try reflexivity;
    destruct Hf as [Hf|[Hf1 Hf2]]; congruence.
Qed.

(** With no filter in force [filtered] is [data] itself, and sorting it
    sorts [data]. *)
Lemma dataAfter_sorting (h : store) (data : ref) (state : TableState)
    (field : SortField) :
  (data < List.length h)%nat ->
  searchQuery state = [] ->
  isNaN (minIdOf (idFilter state)) || isNaN (maxIdOf (idFilter state)) = true ->
  sortField state = Some field ->
  dataAfter toLowerCase h data state
  = sortList (compareFn field (sortOrder state)) (cell h data).
Proof.
  intros Hd Hq Hn Hs. unfold dataAfter. run_effect.
  rewrite Hq, Hs. simpl.
  destruct (isNaN (minIdOf (idFilter state)));
    destruct (isNaN (maxIdOf (idFilter state)));
    simpl in *; try discriminate; cells; reflexivity.
Qed.

End StoreFacts.

(** ** Sorting and filtering on contents *)

Lemma length_insertSorted cmp x l :
  List.length (insertSorted cmp x l) = S (List.length l).
Proof.
  induction l as [|y l IH]; simpl; [reflexivity|].
  destruct (cmp x y >? 0); simpl; [by rewrite IH | reflexivity].
Qed.

Lemma length_sortList cmp l : List.length (sortList cmp l) = List.length l.
Proof.
  induction l as [|x l IH]; simpl; [reflexivity|].
  by rewrite length_insertSorted, IH.
Qed.

Lemma insertSorted_perm cmp x l : insertSorted cmp x l ≡ₚ x :: l.
Proof.
  induction l as [|y l IH]; simpl; [reflexivity|].
  destruct (cmp x y >? 0); [|reflexivity].
  rewrite IH. apply perm_swap.
Qed.

(** Sorting rearranges the rows and neither drops nor adds one. *)
Lemma sortList_perm cmp l : sortList cmp l ≡ₚ l.
Proof.
  induction l as [|x l IH]; simpl; [reflexivity|].
  by rewrite insertSorted_perm, IH.
Qed.

Lemma length_sortStep state l : List.length (sortStep state l) = List.length l.
Proof. unfold sortStep. destruct (sortField state); [apply length_sortList | reflexivity]. Qed.

Lemma sortStep_nil state : sortStep state [] = [].
Proof. unfold sortStep. by destruct (sortField state). Qed.

Lemma filter_none {A} (p : A -> bool) (l : list A) :
  (forall x, p x = false) -> List.filter p l = [].
Proof.
  intros Hp. induction l as [|x l IH]; simpl; [reflexivity|]. by rewrite Hp.
Qed.

Lemma lookup_map {A B} (f : A -> B) (l : list A) (i : nat) :
  List.map f l !! i = f <$> l !! i.
Proof.
  revert i. induction l as [|x l IH]; intros [|i]; simpl; try reflexivity.
  apply IH.
Qed.

(** The bounds when the first two pieces both hold a number. *)
Lemma bounds_of_parts idf p1 p2 more a b :
  split 45 idf = p1 :: p2 :: more ->
  parseInt10 p1 = Some a -> parseInt10 p2 = Some b ->
  minIdOf idf = Some (Some (clampZ a)) /\ maxIdOf idf = Some (Some (clampZ b)).
Proof.
  intros Hs Ha Hb. unfold minIdOf, maxIdOf, idParts. rewrite Hs. simpl.
  by rewrite Ha, Hb.
Qed.

(** A bound is not a number as soon as its piece is missing or does not
    start with digits. *)
Lemma isNaN_of_part idf (i : nat) :
  split 45 idf !! i ≫= parseInt10 = None -> isNaN (idParts idf !! i) = true.
Proof.
  unfold idParts. rewrite lookup_map.
  destruct (split 45 idf !! i) as [p|]; simpl; [|reflexivity].
  intros ->. reflexivity.
Qed.

Lemma inIdRange_numbers lo hi item :
  inIdRange (Some (Some lo)) (Some (Some hi)) item
  = (lo <=? id item) && (id item <=? hi).
Proof. unfold inIdRange. simpl. by rewrite Z.geb_leb. Qed.

Lemma idStep_numbers idf p1 p2 more a b l :
  split 45 idf = p1 :: p2 :: more ->
  parseInt10 p1 = Some a -> parseInt10 p2 = Some b ->
  idStep idf l
  = List.filter (fun item => (clampZ a <=? id item) && (id item <=? clampZ b)) l.
Proof.
  intros Hs Ha Hb.
  destruct (bounds_of_parts idf p1 p2 more a b Hs Ha Hb) as [Hmin Hmax].
  unfold idStep. rewrite Hmin, Hmax. simpl.
  apply List.filter_ext. intros item. apply inIdRange_numbers.
Qed.

Lemma idStep_skipped idf l :
  split 45 idf !! 0%nat ≫= parseInt10 = None \/
  split 45 idf !! 1%nat ≫= parseInt10 = None ->
  idStep idf l = l.
Proof.
  intros H. unfold idStep, minIdOf, maxIdOf.
  destruct H as [H|H]; apply isNaN_of_part in H; rewrite H; simpl;
    [reflexivity | by rewrite andb_false_r].
Qed.

Lemma clampZ_range v : 1 <= clampZ v <= 100.
Proof. unfold clampZ. lia. Qed.

(** ** C2: the page count *)

(** C2 (as the code has it): the page count is the ceiling of the number of
    filtered rows over the eight rows of a page, with no lower bound of
    one: it is [0] when no row passes the filters, and at least [1], hence
    equal to [max(1, ceil(count / 8))], exactly when some row does.
    Sorting does not change the count. *)
Theorem pageCount_is_plain_ceiling (toLowerCase : jsstring -> jsstring)
    (h : store) (data : ref) (state : TableState) :
  (data < List.length h)%nat ->
  let filtered := filteredDataAfter toLowerCase h data state in
  let count := Z.of_nat (List.length filtered) in
  List.length filtered
    = List.length (idStep (idFilter state) (textStep toLowerCase state (cell h data))) /\
  itemsPerPage * (pageCount filtered - 1) < count <= itemsPerPage * pageCount filtered /\
  (filtered = [] -> pageCount filtered = 0) /\
  (filtered <> [] ->
     1 <= pageCount filtered /\
     pageCount filtered = Z.max 1 (ceilDiv count itemsPerPage)).
Proof.
  intros Hd filtered count. subst count filtered.
  rewrite filteredDataAfter_computeView by assumption.
  unfold computeView. split; [apply length_sortStep|].
  split; [apply ceilDiv_bounds; reflexivity|].
  split; [intros ->; reflexivity|].
  intros Hne. pose proof (pageCount_pos _ Hne) as Hp.
  split; [assumption|]. unfold pageCount in *. lia.
Qed.

Lemma pageCount_is_plain_ceiling_witness :
  pageCount (filteredDataAfter asciiLower [posts20] 0%nat defaultState) = 3.
Proof.
  pose proof (pageCount_is_plain_ceiling asciiLower [posts20] 0%nat defaultState
                ltac:(simpl; lia)) as H.
  simpl in H. destruct H as (_ & _ & _ & H).
  destruct H as [_ H]; [discriminate|]. rewrite H. reflexivity.
Defined.

(** C2 fails as stated: before any row is there, or when the filters let
    none through, the page count is [0], which is neither
    [max(1, ceil(0 / 8)) = 1] nor at least [1]. *)
Lemma pageCount_of_no_rows_is_zero :
  let filtered := filteredDataAfter asciiLower [[]] 0%nat defaultState in
  filtered = [] /\
  pageCount filtered = 0 /\
  pageCount filtered
    <> Z.max 1 (ceilDiv (Z.of_nat (List.length filtered)) itemsPerPage) /\
  ~ 1 <= pageCount filtered.
Proof. vm_compute. repeat split; intros H; discriminate H || (apply H; reflexivity). Qed.

(** ** C3: the raw rows under sorting *)

(** C3 (the code at the failing input): with no filter in force and a sort
    column chosen, [filtered] is the array of [data] itself and [sort]
    reorders it in place: rows fetched as ids [2; 1] are left as [1; 2] in
    [data]. *)
Theorem sort_without_filter_reorders_data (toLowerCase : jsstring -> jsstring) :
  let r2 := {| id := 2; title := js "b"; body := js "y" |} in
  let r1 := {| id := 1; title := js "a"; body := js "x" |} in
  let state := {| searchQuery := []; idFilter := []; sortField := Some FieldId;
                  sortOrder := Asc; page := 1 |} in
  cell [[r2; r1]] 0%nat = [r2; r1] /\
  dataAfter toLowerCase [[r2; r1]] 0%nat state = [r1; r2] /\
  dataAfter toLowerCase [[r2; r1]] 0%nat state <> cell [[r2; r1]] 0%nat.
Proof.
  intros r2 r1 state. split; [reflexivity|].
  assert (dataAfter toLowerCase [[r2; r1]] 0%nat state = [r1; r2]) as E
    by reflexivity.
  split; [exact E|]. rewrite E. discriminate.
Qed.

(** ** C4: reversed bounds *)

(** C4: when the first two pieces of [idFilter] both hold a number and the
    clamped first exceeds the clamped second, no row is left in
    [filteredData]; the bounds are used in the order given. *)
Theorem reversed_bounds_exclude_all (toLowerCase : jsstring -> jsstring)
    (h : store) (data : ref) (state : TableState)
    (p1 p2 : jsstring) (more : list jsstring) (a b : Z) :
  (data < List.length h)%nat ->
  split 45 (idFilter state) = p1 :: p2 :: more ->
  parseInt10 p1 = Some a ->
  parseInt10 p2 = Some b ->
  clampZ b < clampZ a ->
  idStep (idFilter state) (textStep toLowerCase state (cell h data)) = [] /\
  filteredDataAfter toLowerCase h data state = [].
Proof.
  intros Hd Hs Ha Hb Hlt.
  assert (idStep (idFilter state) (textStep toLowerCase state (cell h data)) = [])
    as Hnil.
  { rewrite (idStep_numbers _ p1 p2 more a b) by assumption.
    apply filter_none. intros item.
    destruct (Z.leb_spec (clampZ a) (id item));
      destruct (Z.leb_spec (id item) (clampZ b)); simpl; try reflexivity; lia. }
  split; [exact Hnil|].
  rewrite filteredDataAfter_computeView by assumption.
  unfold computeView. rewrite Hnil. apply sortStep_nil.
Qed.

Lemma reversed_bounds_exclude_all_witness :
  filteredDataAfter asciiLower [posts20] 0%nat
    {| searchQuery := []; idFilter := js "10-1"; sortField := None;
       sortOrder := Asc; page := 1 |} = [].
Proof.
  apply (reversed_bounds_exclude_all asciiLower [posts20] 0%nat
           {| searchQuery := []; idFilter := js "10-1"; sortField := None;
              sortOrder := Asc; page := 1 |}
           (js "10") (js "1") [] 10 1).
  - simpl; lia.
  - reflexivity.
  - reflexivity.
  - reflexivity.
  - vm_compute; reflexivity.
Defined.

(** ** C5: clamped bounds, or no id filter at all *)

(** C5: when the first two pieces of [idFilter] split at ["-"] both hold a
    number, each is clamped into [1, 100] on its own and the rows kept are
    those with an id between the clamped bounds; when either piece is
    missing or holds no number, the id filter keeps every row.  In
    particular ["150-200"] keeps the ids from 100 to 100. *)
Theorem id_filter_clamps_or_skips (toLowerCase : jsstring -> jsstring)
    (h : store) (data : ref) (state : TableState) :
  (data < List.length h)%nat ->
  (forall p1 p2 more a b,
      split 45 (idFilter state) = p1 :: p2 :: more ->
      parseInt10 p1 = Some a ->
      parseInt10 p2 = Some b ->
      1 <= clampZ a <= 100 /\ 1 <= clampZ b <= 100 /\
      filteredDataAfter toLowerCase h data state
      = sortStep state
          (List.filter
             (fun item => (clampZ a <=? id item) && (id item <=? clampZ b))
             (textStep toLowerCase state (cell h data)))) /\
  (split 45 (idFilter state) !! 0%nat ≫= parseInt10 = None \/
   split 45 (idFilter state) !! 1%nat ≫= parseInt10 = None ->
   filteredDataAfter toLowerCase h data state
   = sortStep state (textStep toLowerCase state (cell h data))) /\
  (idFilter state = js "150-200" ->
   filteredDataAfter toLowerCase h data state
   = sortStep state
       (List.filter (fun item => (100 <=? id item) && (id item <=? 100))
          (textStep toLowerCase state (cell h data)))).
Proof.
  intros Hd. rewrite filteredDataAfter_computeView by assumption.
  unfold computeView. repeat split.
  - apply clampZ_range.
  - apply clampZ_range.
  - apply clampZ_range.
  - apply clampZ_range.
  - by rewrite (idStep_numbers _ p1 p2 more a b).
  - intros Hnone. by rewrite idStep_skipped.
  - intros ->.
    by rewrite (idStep_numbers _ (js "150") (js "200") [] 150 200).
Qed.

Lemma id_filter_clamps_or_skips_witness :
  let skipped := {| searchQuery := []; idFilter := js "x-3"; sortField := None;
                    sortOrder := Asc; page := 1 |} in
  let ranged := {| searchQuery := []; idFilter := js "2-3"; sortField := None;
                   sortOrder := Asc; page := 1 |} in
  filteredDataAfter asciiLower [posts20] 0%nat skipped = posts20 /\
  List.map id (filteredDataAfter asciiLower [posts20] 0%nat ranged) = [2; 3].
Proof.
  intros skipped ranged. split.
  - destruct (id_filter_clamps_or_skips asciiLower [posts20] 0%nat skipped)
      as (_ & Hskip & _); [simpl; lia|].
    apply Hskip. left. reflexivity.
  - destruct (id_filter_clamps_or_skips asciiLower [posts20] 0%nat ranged)
      as (Hrange & _ & _); [simpl; lia|].
    destruct (Hrange (js "2") (js "3") [] 2 3) as (_ & _ & Heq);
      [reflexivity | reflexivity | reflexivity |].
    rewrite Heq. reflexivity.
Defined.

(** ** C7: sort toggling *)

(** C7: [handleSort field] flips the order when the rows are already sorted
    by [field], and otherwise selects [field] in ascending order; the page
    and the two filter texts stay.  Hence two toggles of the column the rows
    are sorted by give the state back, so an ascending order returns to
    ascending, and a column other than the current one starts ascending. *)
Theorem handleSort_toggles (field : SortField) (s : TableState) :
  page (handleSort field s) = page s /\
  searchQuery (handleSort field s) = searchQuery s /\
  idFilter (handleSort field s) = idFilter s /\
  sortField (handleSort field s) = Some field /\
  (sortField s = Some field ->
     sortOrder (handleSort field s) = flipOrder (sortOrder s)) /\
  (sortField s <> Some field -> sortOrder (handleSort field s) = Asc) /\
  (sortField s = Some field ->
     handleSort field (handleSort field s) = s) /\
  (sortField s = Some field -> sortOrder s = Asc ->
     sortOrder (handleSort field (handleSort field s)) = Asc).
Proof.
  destruct s as [q f sf so p]. unfold handleSort. simpl.
  repeat split.
  - intros ->. destruct field, so; reflexivity.
  - intros Hne. destruct sf as [[]|], field, so; simpl; congruence.
  - intros ->. destruct field, so; reflexivity.
  - intros -> ->. destruct field; reflexivity.
Qed.

Lemma handleSort_toggles_witness :
  let s := {| searchQuery := js "a"; idFilter := js "1-9";
              sortField := Some FieldTitle; sortOrder := Asc; page := 4 |} in
  sortOrder (handleSort FieldTitle s) = Desc /\
  handleSort FieldTitle (handleSort FieldTitle s) = s /\
  sortOrder (handleSort FieldId s) = Asc.
Proof.
  intros s.
  pose proof (handleSort_toggles FieldTitle s) as (_ & _ & _ & _ & Hflip & _ & Hback & _).
  pose proof (handleSort_toggles FieldId s) as (_ & _ & _ & _ & _ & Hother & _).
  split; [exact (Hflip eq_refl)|].
  split; [exact (Hback eq_refl)|].
  apply Hother. discriminate.
Defined.

(** ** C8: text input *)

(** C8: [handleInputChange] puts the new text in the field named, sets the
    page to 1 and keeps the other three fields. *)
Theorem handleInputChange_resets_page (value : jsstring) (s : TableState) :
  handleInputChange InSearchQuery value s
  = {| searchQuery := value; idFilter := idFilter s;
       sortField := sortField s; sortOrder := sortOrder s; page := 1 |} /\
  handleInputChange InIdFilter value s
  = {| searchQuery := searchQuery s; idFilter := value;
       sortField := sortField s; sortOrder := sortOrder s; page := 1 |} /\
  (forall field,
      page (handleInputChange field value s) = 1 /\
      sortField (handleInputChange field value s) = sortField s /\
      sortOrder (handleInputChange field value s) = sortOrder s).
Proof.
  split; [reflexivity|]. split; [reflexivity|].
  intros []; repeat split.
Qed.

(** ** C9: paging *)

(** C9: [handleNextPage] adds one to the page, and changes nothing else,
    when the page is below the page count of the current filtered rows, and
    leaves the state as it is otherwise; [handlePrevPage] takes one off when
    the page is above 1 and leaves the state as it is otherwise.  For a page
    of at least 1 the test against the page count is the test against
    [max(1, page count)]. *)
Theorem page_steps (filteredData : list Post) (s : TableState) :
  (page s < pageCount filteredData ->
     handleNextPage filteredData s = withPage s (page s + 1)) /\
  (pageCount filteredData <= page s -> handleNextPage filteredData s = s) /\
  (1 < page s -> handlePrevPage s = withPage s (page s - 1)) /\
  (page s <= 1 -> handlePrevPage s = s) /\
  (1 <= page s ->
     (page s < pageCount filteredData
      <-> page s < Z.max 1 (pageCount filteredData))) /\
  (forall p, page (withPage s p) = p /\
             searchQuery (withPage s p) = searchQuery s /\
             idFilter (withPage s p) = idFilter s /\
             sortField (withPage s p) = sortField s /\
             sortOrder (withPage s p) = sortOrder s).
Proof.
  unfold handleNextPage, handlePrevPage.
  repeat split.
  - intros H. by apply Z.ltb_lt in H as ->.
  - intros H. by apply Z.ltb_ge in H as ->.
  - intros H. rewrite Z.gtb_ltb. by apply Z.ltb_lt in H as ->.
  - intros H. rewrite Z.gtb_ltb. by apply Z.ltb_ge in H as ->.
  - lia.
  - lia.
Qed.

Lemma page_steps_witness :
  let s := withPage defaultState 2 in
  handleNextPage posts20 s = withPage s 3 /\
  handleNextPage posts20 (withPage s 3) = withPage s 3 /\
  handlePrevPage s = withPage s 1 /\
  handlePrevPage defaultState = defaultState.
Proof.
  intros s.
  pose proof (page_steps posts20 s) as (Hn & _ & Hp & _).
  pose proof (page_steps posts20 (withPage s 3)) as (_ & Hn' & _).
  pose proof (page_steps posts20 defaultState) as (_ & _ & _ & Hp' & _).
  split; [apply Hn; vm_compute; reflexivity|].
  split; [apply Hn'; vm_compute; discriminate|].
  split; [apply Hp; vm_compute; reflexivity|].
  apply Hp'. vm_compute. discriminate.
Defined.

(** ** JSON: what is written is read back *)

Lemma hexValue_hexDigit (n : N) : (n < 16)%N -> hexValue (hexDigit n) = Some n.
Proof.
  intros H. remember (N.to_nat n) as k eqn:Hk.
  assert (n = N.of_nat k) as -> by lia.
  assert (k < 16)%nat as Hlt by lia. clear H Hk.
  do 16 (destruct k as [|k]; [reflexivity|]). lia.
Qed.

Lemma readHex4_unicodeEscape (c : N) :
  (c < 65536)%N ->
  readHex4 (hexDigit (c / 4096)) (hexDigit ((c / 256) mod 16))
           (hexDigit ((c / 16) mod 16)) (hexDigit (c mod 16)) = Some c.
Proof.
  intros H. unfold readHex4.
  rewrite !hexValue_hexDigit by (zify; Z.to_euclidean_division_equations; lia).
  f_equal. zify; Z.to_euclidean_division_equations; lia.
Qed.

Lemma readString_u (h1 h2 h3 h4 : N) (tail : jsstring) :
  readString (92 :: 117 :: h1 :: h2 :: h3 :: h4 :: tail)%N
  = match readHex4 h1 h2 h3 h4 with
    | Some u => pushUnit u (readString tail)
    | None => None
    end.
Proof. reflexivity. Qed.

Lemma readString_unicodeEscape (c : N) (tail : jsstring) :
  (c < 65536)%N ->
  readString (unicodeEscape c ++ tail) = pushUnit c (readString tail).
Proof.
  intros H. unfold unicodeEscape. cbn [app].
  by rewrite readString_u, readHex4_unicodeEscape.
Qed.

Lemma readString_plain (c : N) (tail : jsstring) :
  c <> 34%N -> c <> 92%N -> (32 <= c)%N ->
  readString (c :: tail) = pushUnit c (readString tail).
Proof.
  intros H1 H2 H3. cbn [readString].
  destruct (N.eqb_spec c 34); [congruence|].
  destruct (N.eqb_spec c 92); [congruence|].
  destruct (N.ltb_spec c 32); [lia|]. reflexivity.
Qed.

Lemma isLowSurrogate_range (c : N) :
  isLowSurrogate c = true -> (56320 <= c <= 57343)%N.
Proof.
  unfold isLowSurrogate. intros [H1 H2]%andb_true_iff.
  apply N.leb_le in H1, H2. lia.
Qed.

Lemma isHighSurrogate_range (c : N) :
  isHighSurrogate c = true -> (55296 <= c <= 56319)%N.
Proof.
  unfold isHighSurrogate. intros [H1 H2]%andb_true_iff.
  apply N.leb_le in H1, H2. lia.
Qed.

Lemma readString_escapeUnit (c : N) (tail : jsstring) :
  isHighSurrogate c = false ->
  readString (escapeUnit c ++ tail) = pushUnit c (readString tail).
Proof.
  intros Hh. unfold escapeUnit.
  repeat match goal with
         | |- context [N.eqb c ?k] =>
             destruct (N.eqb_spec c k); [subst c; reflexivity|]
         end.
  destruct (N.ltb_spec c 32) as [Hlt|Hge]; simpl orb.
  - apply readString_unicodeEscape. lia.
  - destruct (isLowSurrogate c) eqn:Hl.
    + apply readString_unicodeEscape. apply isLowSurrogate_range in Hl. lia.
    + apply readString_plain; assumption.
Qed.

Lemma readString_quoteBody_bounded (n : nat) :
  forall (s rest : jsstring),
    (List.length s <= n)%nat ->
    readString (quoteBody s ++ 34%N :: rest) = Some (s, rest).
Proof.
  induction n as [|n IH]; intros s rest Hlen.
  - destruct s; [reflexivity | simpl in Hlen; lia].
  - destruct s as [|c r]; [reflexivity|].
    simpl in Hlen. cbn [quoteBody].
    destruct (isHighSurrogate c) eqn:Hc.
    + apply isHighSurrogate_range in Hc.
      destruct r as [|d r'].
      * rewrite readString_unicodeEscape by lia.
        reflexivity.
      * destruct (isLowSurrogate d) eqn:Hd.
        -- apply isLowSurrogate_range in Hd.
           cbn [app]. rewrite !readString_plain by lia.
           rewrite IH by (simpl in Hlen; lia). reflexivity.
        -- rewrite <- app_assoc, readString_unicodeEscape by lia.
           rewrite IH by lia. reflexivity.
    + rewrite <- app_assoc, readString_escapeUnit by assumption.
      rewrite IH by lia. reflexivity.
Qed.

Lemma readString_quoteBody (s rest : jsstring) :
  readString (quoteBody s ++ 34%N :: rest) = Some (s, rest).
Proof. by apply (readString_quoteBody_bounded (List.length s)). Qed.

Lemma isDigit_range (c : N) : isDigit c = true <-> (48 <= c <= 57)%N.
Proof.
  unfold isDigit. rewrite andb_true_iff, !N.leb_le. tauto.
Qed.

Lemma isDigit_of_Z (d : Z) : 0 <= d < 10 -> isDigit (Z.to_N (48 + d)) = true.
Proof. intros H. apply isDigit_range. lia. Qed.

Lemma digitValue_of_Z (d : Z) : 0 <= d -> digitValue (Z.to_N (48 + d)) = d.
Proof. intros H. unfold digitValue. lia. Qed.

Lemma digitsValue_snoc (ds : jsstring) (c : N) :
  digitsValue (ds ++ [c]) = 10 * digitsValue ds + digitValue c.
Proof. unfold digitsValue. by rewrite fold_left_app. Qed.

Lemma digitsRev_value (fuel : nat) :
  forall n, 0 <= n < 2 ^ Z.of_nat fuel ->
            digitsValue (rev (digitsRev fuel n)) = n.
Proof.
  induction fuel as [|fuel IH]; intros n Hn.
  - simpl in *. assert (n = 0) as -> by lia. reflexivity.
  - cbn [digitsRev]. destruct (Z.ltb_spec n 10) as [Hlt|Hge].
    + cbn [rev app]. unfold digitsValue. cbn [fold_left].
      rewrite digitValue_of_Z by lia. lia.
    + cbn [rev]. rewrite digitsValue_snoc, digitValue_of_Z
        by (apply Z.mod_pos_bound; lia).
      rewrite IH.
      * pose proof (Z.div_mod n 10 ltac:(lia)). lia.
      * rewrite Nat2Z.inj_succ, Z.pow_succ_r in Hn by lia.
        split; [apply Z.div_pos; lia|].
        apply Z.div_lt_upper_bound; lia.
Qed.

Lemma digitsRev_digits (fuel : nat) :
  forall n, 0 <= n -> Forall (fun c => isDigit c = true) (digitsRev fuel n).
Proof.
  induction fuel as [|fuel IH]; intros n Hn; cbn [digitsRev]; [constructor|].
  destruct (Z.ltb_spec n 10) as [Hlt|Hge].
  - constructor; [apply isDigit_of_Z; lia | constructor].
  - constructor.
    + apply isDigit_of_Z, Z.mod_pos_bound. lia.
    + apply IH, Z.div_pos; lia.
Qed.

(** The most significant digit of a positive number is not a zero. *)
Lemma digitsRev_leading (fuel : nat) :
  forall n, 0 < n < 2 ^ Z.of_nat fuel ->
            exists l d, digitsRev fuel n = l ++ [d] /\ d <> 48%N.
Proof.
  induction fuel as [|fuel IH]; intros n Hn.
  - simpl in Hn. lia.
  - cbn [digitsRev]. destruct (Z.ltb_spec n 10) as [Hlt|Hge].
    + exists [], (Z.to_N (48 + n)). split; [reflexivity | lia].
    + rewrite Nat2Z.inj_succ, Z.pow_succ_r in Hn by lia.
      destruct (IH (n / 10)) as (l & d & Hl & Hd).
      * split; [apply Z.div_str_pos; lia|].
        apply Z.div_lt_upper_bound; lia.
      * exists (Z.to_N (48 + n mod 10) :: l), d. rewrite Hl. by split.
Qed.

Lemma digitsOf_fuel (n : Z) :
  0 <= n -> 0 <= n < 2 ^ Z.of_nat (S (Z.to_nat (Z.log2 n))).
Proof.
  intros Hn. split; [assumption|].
  rewrite Nat2Z.inj_succ, Z2Nat.id by apply Z.log2_nonneg.
  destruct (Z.eq_dec n 0) as [->|Hne]; [reflexivity|].
  apply Z.log2_spec. lia.
Qed.

Lemma digitsValue_digitsOf (n : Z) : 0 <= n -> digitsValue (digitsOf n) = n.
Proof. intros Hn. apply digitsRev_value, digitsOf_fuel, Hn. Qed.

Lemma digitsOf_digits (n : Z) :
  0 <= n -> Forall (fun c => isDigit c = true) (digitsOf n).
Proof.
  intros Hn. unfold digitsOf. apply Forall_rev. by apply digitsRev_digits.
Qed.

Lemma digitsOf_leading (n : Z) :
  0 < n -> exists d tl, digitsOf n = d :: tl /\ d <> 48%N /\ isDigit d = true.
Proof.
  intros Hn. unfold digitsOf.
  destruct (digitsRev_leading (S (Z.to_nat (Z.log2 n))) n) as (l & d & Hl & Hd).
  { pose proof (digitsOf_fuel n ltac:(lia)). lia. }
  exists d, (rev l). rewrite Hl, rev_app_distr. repeat split; [assumption|].
  pose proof (digitsRev_digits (S (Z.to_nat (Z.log2 n))) n ltac:(lia)) as Hall.
  rewrite Hl in Hall. apply Forall_app in Hall as [_ Hall].
  by inversion Hall.
Qed.

Lemma takeDigits_app (ds : jsstring) (c : N) (rest : jsstring) :
  Forall (fun c => isDigit c = true) ds ->
  isDigit c = false ->
  takeDigits (ds ++ c :: rest) = (ds, c :: rest).
Proof.
  intros Hds Hc. induction Hds as [|d ds Hd _ IH]; cbn [app takeDigits].
  - by rewrite Hc.
  - by rewrite Hd, IH.
Qed.

Lemma readIntPart_digitsOf (n : Z) (c : N) (rest : jsstring) :
  0 <= n -> isDigit c = false ->
  readIntPart (digitsOf n ++ c :: rest) = Some (digitsOf n, c :: rest).
Proof.
  intros Hn Hc. destruct (Z.eq_dec n 0) as [->|Hne].
  - reflexivity.
  - destruct (digitsOf_leading n ltac:(lia)) as (d & tl & Hd & Hz & Hdig).
    pose proof (takeDigits_app _ c rest (digitsOf_digits n Hn) Hc) as Ht.
    rewrite Hd in *. cbn [app] in *. unfold readIntPart.
    destruct (N.eqb_spec d 48); [congruence|].
    by rewrite Hdig, Ht.
Qed.

Lemma readFraction_none (c : N) (rest : jsstring) :
  c <> 46%N -> readFraction (c :: rest) = Some ([], c :: rest).
Proof.
  intros Hc. unfold readFraction. by destruct (N.eqb_spec c 46).
Qed.

Lemma readExponent_none (c : N) (rest : jsstring) :
  c <> 101%N -> c <> 69%N -> readExponent (c :: rest) = Some (0, c :: rest).
Proof.
  intros H1 H2. unfold readExponent.
  destruct (N.eqb_spec c 101); [congruence|].
  by destruct (N.eqb_spec c 69).
Qed.

Lemma normalize_int (k : nat) (m : Z) : normalize k m 0 = ofInt m.
Proof.
  unfold normalize. destruct (Z.eqb_spec m 0) as [->|Hm]; [reflexivity|].
  cbn [Z.leb Z.compare]. f_equal. change (10 ^ 0) with 1. lia.
Qed.

Lemma readNumber_nonneg (n : Z) (sign : Z) (c : N) (rest : jsstring) :
  0 <= n -> endsNumber c ->
  match readIntPart (digitsOf n ++ c :: rest) with
  | Some (ids, s) =>
      match readFraction s with
      | Some (fds, s) =>
          match readExponent s with
          | Some (e, s) =>
              Some (normalize (List.length ids + List.length fds)
                      (sign * digitsValue (ids ++ fds))
                      (e - Z.of_nat (List.length fds)), s)
          | None => None
          end
      | None => None
      end
  | None => None
  end = Some (ofInt (sign * n), c :: rest).
Proof.
  intros Hn (Hd & Hdot & He1 & He2).
  rewrite readIntPart_digitsOf, readFraction_none, readExponent_none
    by assumption.
  cbn [List.length]. rewrite app_nil_r, digitsValue_digitsOf by assumption.
  change (0 - Z.of_nat 0) with 0. by rewrite normalize_int.
Qed.

Lemma readNumber_numberToString (z : Z) (c : N) (rest : jsstring) :
  endsNumber c ->
  readNumber (numberToString z ++ c :: rest) = Some (ofInt z, c :: rest).
Proof.
  intros Hc. unfold numberToString, readNumber.
  destruct (Z.ltb_spec z 0) as [Hneg|Hpos].
  - cbn [app]. change (N.eqb 45 45) with true. cbv iota beta.
    rewrite (readNumber_nonneg (- z) (-1)) by (assumption || lia).
    replace (-1 * - z) with z by lia. reflexivity.
  - destruct (Z.eq_dec z 0) as [->|Hne].
    + destruct Hc as (Hd & Hdot & He1 & He2).
      change (digitsOf 0) with [48%N]. cbn [app].
      change (N.eqb 48 45) with false. cbv iota beta.
      unfold readIntPart. change (N.eqb 48 48) with true. cbv iota beta.
      by rewrite readFraction_none, readExponent_none.
    + destruct (digitsOf_leading z ltac:(lia)) as (d & tl & Hd & Hz & Hdig).
      pose proof (readNumber_nonneg z 1 c rest Hpos Hc) as Hr.
      rewrite Hd in *. cbn [app] in *.
      apply isDigit_range in Hdig.
      destruct (N.eqb_spec d 45); [lia|].
      rewrite Hr. replace (1 * z) with z by lia. reflexivity.
Qed.

(** The first character of a number is a digit or a minus sign. *)
Lemma numberToString_head (z : Z) :
  exists d tl, numberToString z = d :: tl /\ (d = 45%N \/ isDigit d = true).
Proof.
  unfold numberToString. destruct (Z.ltb_spec z 0) as [Hneg|Hpos].
  - exists 45%N, (digitsOf (- z)). by split; [|left].
  - destruct (Z.eq_dec z 0) as [->|Hne].
    + exists 48%N, []. by split; [|right].
    + destruct (digitsOf_leading z ltac:(lia)) as (d & tl & Hd & _ & Hdig).
      exists d, tl. by split; [|right].
Qed.

Lemma js_null : js "null" = [110; 117; 108; 108]%N.
Proof. reflexivity. Qed.
Lemma js_true : js "true" = [116; 114; 117; 101]%N.
Proof. reflexivity. Qed.
Lemma js_false : js "false" = [102; 97; 108; 115; 101]%N.
Proof. reflexivity. Qed.

Lemma startsWith_head_ne (c p : N) (s pre : jsstring) :
  p <> c -> startsWith (c :: s) (p :: pre) = false.
Proof. intros H. cbn [startsWith]. by destruct (N.eqb_spec p c). Qed.

Lemma parseValue_number (fuel : nat) (z : Z) (c : N) (rest : jsstring) :
  endsNumber c ->
  parseValue (S fuel) (numberToString z ++ c :: rest)
  = Parsed (JNum (ofInt z)) (c :: rest).
Proof.
  intros Hc. pose proof (readNumber_numberToString z c rest Hc) as Hr.
  destruct (numberToString_head z) as (d & tl & Hd & Hhead).
  rewrite Hd in *. cbn [app] in *. cbn [parseValue].
  assert (48 <= d <= 57 \/ d = 45)%N as Hrange.
  { destruct Hhead as [->|Hdig%isDigit_range]; lia. }
  destruct (N.eqb_spec d 123); [lia|].
  destruct (N.eqb_spec d 91); [lia|].
  destruct (N.eqb_spec d 34); [lia|].
  rewrite js_null, js_true, js_false.
  rewrite !startsWith_head_ne by lia.
  by rewrite Hr.
Qed.

Lemma parseValue_string (fuel : nat) (s rest : jsstring) :
  parseValue (S fuel) (quote s ++ rest) = Parsed (JStr s) rest.
Proof.
  unfold quote. rewrite <- !app_assoc. cbn [app parseValue].
  change (N.eqb 34 123) with false. change (N.eqb 34 91) with false.
  change (N.eqb 34 34) with true. cbv iota beta.
  by rewrite readString_quoteBody.
Qed.

Lemma parseValue_null (fuel : nat) (rest : jsstring) :
  parseValue (S fuel) (js "null" ++ rest) = Parsed JNull rest.
Proof. reflexivity. Qed.

Lemma skipWs_quote (s rest : jsstring) :
  skipWs (quote s ++ rest) = quote s ++ rest.
Proof. reflexivity. Qed.

(** One member of an object and the separator [d] after it. *)
Lemma parseMembers_step (pv : jsstring -> parsed json) (fuel : nat)
    (k text : jsstring) (v : json) (d : N) (rest : jsstring)
    (acc : list (jsstring * json)) :
  skipWs text = text ->
  isJsonWhiteSpace d = false ->
  pv text = Parsed v (d :: rest) ->
  parseMembers pv (S fuel) (quote k ++ 58%N :: text) acc
  = if N.eqb d 44
    then parseMembers pv fuel (skipWs rest) (setMember k v acc)
    else if N.eqb d 125 then Parsed (JObj (setMember k v acc)) rest
    else Malformed.
Proof.
  intros Hws Hd Hpv. unfold quote. rewrite <- !app_assoc.
  cbn [app parseMembers]. change (N.eqb 34 34) with true. cbv iota beta.
  rewrite readString_quoteBody. cbn [skipWs].
  change (isJsonWhiteSpace 58) with false. cbv iota beta.
  change (N.eqb 58 58) with true. cbv iota beta.
  change (if isJsonWhiteSpace 58 then skipWs text else 58%N :: text)
    with (58%N :: text).
  rewrite Hws, Hpv. cbn [skipWs]. rewrite Hd. reflexivity.
Qed.

Lemma length_quote (s : jsstring) : (2 <= List.length (quote s))%nat.
Proof. unfold quote. rewrite !length_app. simpl. lia. Qed.

Lemma skipWs_number (z : Z) (rest : jsstring) :
  skipWs (numberToString z ++ rest) = numberToString z ++ rest.
Proof.
  destruct (numberToString_head z) as (d & tl & -> & Hhead).
  cbn [app skipWs].
  assert (isJsonWhiteSpace d = false) as ->; [|reflexivity].
  destruct Hhead as [->|Hdig%isDigit_range]; [reflexivity|].
  unfold isJsonWhiteSpace.
  destruct (N.eqb_spec d 9); [lia|]. destruct (N.eqb_spec d 10); [lia|].
  destruct (N.eqb_spec d 13); [lia|]. destruct (N.eqb_spec d 32); [lia|].
  reflexivity.
Qed.

Lemma endsNumber_brace : endsNumber 125.
Proof. repeat split; discriminate. Qed.

(** The members of a stringified state, read back. *)
Lemma parseMembers_stringify (f1 f2 : nat) (s : TableState) (rest : jsstring) :
  parseMembers (parseValue (S f2)) (5 + f1)
    (stringifyMembers s ++ 125%N :: rest) []
  = Parsed (valueOfState s) rest.
Proof.
  destruct s as [q idf sf so p].
  unfold stringifyMembers.
  cbn [searchQuery idFilter sortField sortOrder page].
  rewrite <- !app_assoc. cbn [app Nat.add].
  erewrite (parseMembers_step _ _ _ _ (JStr q) 44);
    [| apply skipWs_quote | reflexivity | apply parseValue_string].
  change (N.eqb 44 44) with true. cbv iota beta. rewrite skipWs_quote.
  erewrite (parseMembers_step _ _ _ _ (JStr idf) 44);
    [| apply skipWs_quote | reflexivity | apply parseValue_string].
  change (N.eqb 44 44) with true. cbv iota beta. rewrite skipWs_quote.
  erewrite (parseMembers_step _ _ _ _
             (match sf with Some f => JStr (sortFieldName f) | None => JNull end) 44);
    [| by destruct sf | reflexivity
     | destruct sf; [apply parseValue_string | apply parseValue_null] ].
  change (N.eqb 44 44) with true. cbv iota beta. rewrite skipWs_quote.
  erewrite (parseMembers_step _ _ _ _ (JStr (sortOrderName so)) 44);
    [| apply skipWs_quote | reflexivity | apply parseValue_string].
  change (N.eqb 44 44) with true. cbv iota beta. rewrite skipWs_quote.
  erewrite (parseMembers_step _ _ _ _ (JNum (ofInt p)) 125);
    [| apply skipWs_number | reflexivity
     | apply parseValue_number, endsNumber_brace ].
  reflexivity.
Qed.

Lemma length_stringifyMembers (s : TableState) :
  (5 <= List.length (stringifyMembers s))%nat.
Proof.
  unfold stringifyMembers. rewrite !length_app.
  pose proof (length_quote (js "searchQuery")).
  pose proof (length_quote (searchQuery s)). simpl. lia.
Qed.

Lemma parseMembers_stringify_fuel (F1 F2 : nat) (s : TableState)
    (rest : jsstring) :
  (5 <= F1)%nat -> (1 <= F2)%nat ->
  parseMembers (parseValue F2) F1 (stringifyMembers s ++ 125%N :: rest) []
  = Parsed (valueOfState s) rest.
Proof.
  intros H1 H2.
  destruct F1 as [|[|[|[|[|F1]]]]]; try lia.
  destruct F2 as [|F2]; try lia.
  apply (parseMembers_stringify F1 F2).
Qed.

Theorem JSON_parse_stringify (s : TableState) :
  JSON_parse (JSON_stringify s) = Return (valueOfState s).
Proof.
  unfold JSON_parse, JSON_stringify.
  remember (List.length ([123%N] ++ stringifyMembers s ++ [125%N])) as F eqn:HF.
  assert (5 <= F)%nat as Hfuel.
  { subst F. rewrite !length_app. pose proof (length_stringifyMembers s). lia. }
  clear HF.
  pose proof (parseMembers_stringify_fuel F F s [] Hfuel ltac:(lia)) as Hparse.
  unfold stringifyMembers in *. rewrite <- !app_assoc in *.
  unfold quote at 1. unfold quote at 1 in Hparse.
  rewrite <- !app_assoc in *. cbn [app skipWs] in *.
  change (isJsonWhiteSpace 123) with false. cbv iota beta.
  cbn [parseValue]. change (N.eqb 123 123) with true. cbv iota beta.
  cbn [skipWs].
  change (isJsonWhiteSpace 34) with false. cbv iota beta.
  change (N.eqb 34 125) with false. cbv iota beta.
  rewrite Hparse. reflexivity.
Qed.

(** *** Fuel *)

Lemma length_skipWs (s : jsstring) : (List.length (skipWs s) <= List.length s)%nat.
Proof.
  induction s as [|c s IH]; simpl; [lia|].
  destruct (isJsonWhiteSpace c); simpl; lia.
Qed.

Lemma length_pushUnit c r str rest :
  pushUnit c r = Some (str, rest) ->
  exists str', r = Some (str', rest).
Proof.
  destruct r as [[str' rest']|]; simpl; [|discriminate].
  intros [= _ ->]. by exists str'.
Qed.

Lemma length_readString_bounded (n : nat) :
  forall s str rest,
    (List.length s <= n)%nat ->
    readString s = Some (str, rest) ->
    (List.length rest < List.length s)%nat.
Proof.
  induction n as [|n IH]; intros s str rest Hn Hr.
  - destruct s; [discriminate | simpl in Hn; lia].
  - destruct s as [|c r]; [discriminate|]. simpl in Hn. cbn [readString] in Hr.
    destruct (N.eqb c 34).
    { injection Hr as _ <-. simpl. lia. }
    destruct (N.eqb c 92).
    + destruct r as [|e r']; [discriminate|].
      destruct (N.eqb e 117).
      * destruct r' as [|h1 [|h2 [|h3 [|h4 r'']]]]; try discriminate.
        destruct (readHex4 h1 h2 h3 h4); [|discriminate].
        apply length_pushUnit in Hr as [str' Hr].
        apply IH in Hr; simpl in *; lia.
      * destruct (unescape e); [|discriminate].
        apply length_pushUnit in Hr as [str' Hr].
        apply IH in Hr; simpl in *; lia.
    + destruct (N.ltb c 32); [discriminate|].
      apply length_pushUnit in Hr as [str' Hr].
      apply IH in Hr; simpl in *; lia.
Qed.

Lemma length_readString s str rest :
  readString s = Some (str, rest) ->
  (List.length rest < List.length s)%nat.
Proof. by apply (length_readString_bounded (List.length s)). Qed.

Lemma length_takeDigits (s : jsstring) :
  (List.length (snd (takeDigits s)) <= List.length s)%nat.
Proof.
  induction s as [|c s IH]; simpl; [lia|].
  destruct (isDigit c); [|simpl; lia].
  destruct (takeDigits s) as [ds rest]. simpl in *. lia.
Qed.

Lemma length_readIntPart s ids rest :
  readIntPart s = Some (ids, rest) ->
  (List.length rest < List.length s)%nat.
Proof.
  unfold readIntPart. destruct s as [|c r]; [discriminate|].
  destruct (N.eqb c 48).
  { intros [= _ <-]. simpl. lia. }
  destruct (isDigit c) eqn:Hc; [|discriminate].
  intros [= Ht]. pose proof (length_takeDigits r) as Hl.
  cbn [takeDigits] in Ht. rewrite Hc in Ht.
  destruct (takeDigits r) as [ds rest']. injection Ht as _ <-.
  simpl in *. lia.
Qed.

Lemma length_readFraction s fds rest :
  readFraction s = Some (fds, rest) ->
  (List.length rest <= List.length s)%nat.
Proof.
  unfold readFraction. destruct s as [|c r]; [intros [= _ <-]; lia|].
  destruct (N.eqb c 46); [|intros [= _ <-]; lia].
  pose proof (length_takeDigits r) as Hl.
  destruct (takeDigits r) as [[|d ds] rest']; [discriminate|].
  intros [= _ <-]. simpl in *. lia.
Qed.

Lemma length_readExponent s e rest :
  readExponent s = Some (e, rest) ->
  (List.length rest <= List.length s)%nat.
Proof.
  unfold readExponent. destruct s as [|c r]; [intros [= _ <-]; lia|].
  destruct (N.eqb c 101 || N.eqb c 69); [|intros [= _ <-]; lia].
  assert (forall sign r0, (List.length r0 <= List.length r)%nat ->
            match takeDigits r0 with
            | ([], _) => None
            | (ds, rest0) => Some (sign * digitsValue ds, rest0)
            end = Some (e, rest) ->
            (List.length rest <= List.length (c :: r))%nat) as Haux.
  { intros sign r0 Hr0 Ht. pose proof (length_takeDigits r0) as Hl.
    destruct (takeDigits r0) as [[|d ds] rest0]; [discriminate|].
    injection Ht as _ <-. simpl in *. lia. }
  destruct r as [|d r']; [apply (Haux 1); lia|].
  destruct (N.eqb d 45); [apply (Haux (-1)); simpl; lia|].
  destruct (N.eqb d 43); [apply (Haux 1); simpl; lia|].
  apply (Haux 1); lia.
Qed.

Lemma length_readNumber s n rest :
  readNumber s = Some (n, rest) ->
  (List.length rest < List.length s)%nat.
Proof.
  unfold readNumber.
  assert (forall sign s0, (List.length s0 <= List.length s)%nat ->
            match readIntPart s0 with
            | Some (ids, s1) =>
                match readFraction s1 with
                | Some (fds, s2) =>
                    match readExponent s2 with
                    | Some (e, s3) =>
                        Some (normalize (List.length ids + List.length fds)
                                (sign * digitsValue (ids ++ fds))
                                (e - Z.of_nat (List.length fds)), s3)
                    | None => None
                    end
                | None => None
                end
            | None => None
            end = Some (n, rest) ->
            (List.length rest < List.length s)%nat) as Haux.
  { intros sign s0 Hs0 H.
    destruct (readIntPart s0) as [[ids s1]|] eqn:H1; [|discriminate].
    destruct (readFraction s1) as [[fds s2]|] eqn:H2; [|discriminate].
    destruct (readExponent s2) as [[e s3]|] eqn:H3; [|discriminate].
    injection H as _ <-.
    apply length_readIntPart in H1. apply length_readFraction in H2.
    apply length_readExponent in H3. lia. }
  destruct s as [|c r]; [apply (Haux 1); lia|].
  destruct (N.eqb c 45); [apply (Haux (-1)); simpl; lia | apply (Haux 1); lia].
Qed.

Lemma parseElements_consumes pv n :
  consumes pv n ->
  forall k s acc,
    (List.length s < k)%nat -> (List.length s < n)%nat ->
    parseElements pv k s acc <> OutOfFuel /\
    forall v r, parseElements pv k s acc = Parsed v r ->
                (List.length r < List.length s)%nat.
Proof.
  intros Hpv. induction k as [|k IH]; intros s acc Hk Hn; [lia|].
  cbn [parseElements]. destruct (Hpv s Hn) as [Hne Hlen].
  destruct (pv s) as [v0 r0| |] eqn:Hp; [|by split|congruence].
  specialize (Hlen v0 r0 eq_refl).
  pose proof (length_skipWs r0) as Hws.
  destruct (skipWs r0) as [|c r'] eqn:Hs; [by split|].
  simpl in Hws.
  destruct (N.eqb c 44).
  - pose proof (length_skipWs r') as Hws'.
    destruct (IH (skipWs r') (acc ++ [v0])) as [H1 H2]; [lia|lia|].
    split; [assumption|]. intros v r Hr. apply H2 in Hr. lia.
  - destruct (N.eqb c 93); [|by split].
    split; [discriminate|]. intros v r [= _ <-]. lia.
Qed.

Lemma parseMembers_consumes pv n :
  consumes pv n ->
  forall k s acc,
    (List.length s < k)%nat -> (List.length s < n)%nat ->
    parseMembers pv k s acc <> OutOfFuel /\
    forall v r, parseMembers pv k s acc = Parsed v r ->
                (List.length r < List.length s)%nat.
Proof.
  intros Hpv. induction k as [|k IH]; intros s acc Hk Hn; [lia|].
  cbn [parseMembers].
  destruct s as [|q r]; [by split|].
  destruct (N.eqb q 34); [|by split].
  destruct (readString r) as [[key r1]|] eqn:Hr; [|by split].
  apply length_readString in Hr.
  pose proof (length_skipWs r1) as Hws1.
  destruct (skipWs r1) as [|c r2]; [by split|].
  destruct (N.eqb c 58); [|by split].
  pose proof (length_skipWs r2) as Hws2. simpl in *.
  destruct (Hpv (skipWs r2) ltac:(lia)) as [Hne Hlen].
  destruct (pv (skipWs r2)) as [v0 r3| |] eqn:Hp; [|by split|congruence].
  specialize (Hlen v0 r3 eq_refl).
  pose proof (length_skipWs r3) as Hws3.
  destruct (skipWs r3) as [|d r4]; [by split|]. simpl in *.
  destruct (N.eqb d 44).
  - pose proof (length_skipWs r4) as Hws4.
    destruct (IH (skipWs r4) (setMember key v0 acc)) as [H1 H2]; [lia|lia|].
    split; [assumption|]. intros v rr Hres. apply H2 in Hres. lia.
  - destruct (N.eqb d 125); [|by split].
    split; [discriminate|]. intros v rr [= _ <-]. lia.
Qed.

Lemma parseValue_consumes (fuel : nat) : consumes (parseValue fuel) fuel.
Proof.
  induction fuel as [|fuel IH]; intros s Hs; [lia|].
  cbn [parseValue]. destruct s as [|c r]; [by split|]. simpl in Hs.
  destruct (N.eqb c 123).
  { pose proof (length_skipWs r) as Hws.
    destruct (skipWs r) as [|d r']; [by split|].
    destruct (N.eqb d 125).
    - split; [discriminate|]. intros v r0 [= _ <-]. simpl in *. lia.
    - destruct (parseMembers_consumes _ _ IH fuel (d :: r') [])
        as [H1 H2]; [lia|lia|].
      split; [assumption|]. intros v r0 Hr. apply H2 in Hr. simpl in *. lia. }
  destruct (N.eqb c 91).
  { pose proof (length_skipWs r) as Hws.
    destruct (skipWs r) as [|d r']; [by split|].
    destruct (N.eqb d 93).
    - split; [discriminate|]. intros v r0 [= _ <-]. simpl in *. lia.
    - destruct (parseElements_consumes _ _ IH fuel (d :: r') [])
        as [H1 H2]; [lia|lia|].
      split; [assumption|]. intros v r0 Hr. apply H2 in Hr. simpl in *. lia. }
  destruct (N.eqb c 34).
  { destruct (readString r) as [[str r']|] eqn:Hr; [|by split].
    apply length_readString in Hr.
    split; [discriminate|]. intros v r0 [= _ <-]. simpl. lia. }
  destruct (startsWith (c :: r) (js "null")).
  { split; [discriminate|]. intros v r0 [= _ <-]. rewrite length_drop. simpl. lia. }
  destruct (startsWith (c :: r) (js "true")).
  { split; [discriminate|]. intros v r0 [= _ <-]. rewrite length_drop. simpl. lia. }
  destruct (startsWith (c :: r) (js "false")).
  { split; [discriminate|]. intros v r0 [= _ <-]. rewrite length_drop. simpl. lia. }
  destruct (readNumber (c :: r)) as [[n r']|] eqn:Hr; [|by split].
  apply length_readNumber in Hr.
  split; [discriminate|]. intros v r0 [= _ <-]. assumption.
Qed.

(** [JSON_parse] gives its reader fuel enough for any text. *)
Lemma JSON_parse_fuel (text : jsstring) :
  parseValue (S (List.length text)) (skipWs text) <> OutOfFuel.
Proof.
  apply parseValue_consumes. pose proof (length_skipWs text). lia.
Qed.

(** ** C6, C1, C10: saving and loading *)

(** A state is determined by its object. *)
Lemma valueOfState_inj (s1 s2 : TableState) :
  valueOfState s1 = valueOfState s2 -> s1 = s2.
Proof.
  destruct s1 as [q1 f1 sf1 so1 p1], s2 as [q2 f2 sf2 so2 p2].
  unfold valueOfState; simpl. intros H.
  injection H as -> -> Hsf Hso ->.
  f_equal.
  - destruct sf1 as [[]|], sf2 as [[]|]; try reflexivity; discriminate.
  - destruct so1, so2; try reflexivity; discriminate.
Qed.

Lemma isEmpty_stringify (s : TableState) : isEmpty (JSON_stringify s) = false.
Proof. reflexivity. Qed.

(** C6: loading what has just been saved under the same key returns the
    saved state, whatever the default and whatever was stored before. *)
Theorem load_after_save (key : jsstring) (s defaultValue : TableState)
    (localStorage : gmap jsstring jsstring) :
  loadFromLocalStorage key defaultValue (saveToLocalStorage key s localStorage)
  = Return (valueOfState s).
Proof.
  unfold loadFromLocalStorage, saveToLocalStorage.
  rewrite lookup_insert_eq, isEmpty_stringify. cbn [negb].
  apply JSON_parse_stringify.
Qed.

(** C1 (as the code has it): the default comes back when nothing, or the
    empty string, is stored under the key; a stored text that [JSON.parse]
    rejects makes the load throw its [SyntaxError]. *)
Theorem load_default_or_throw (key : jsstring) (defaultValue : TableState)
    (localStorage : gmap jsstring jsstring) :
  (localStorage !! key = None ->
     loadFromLocalStorage key defaultValue localStorage
     = Return (valueOfState defaultValue)) /\
  (localStorage !! key = Some [] ->
     loadFromLocalStorage key defaultValue localStorage
     = Return (valueOfState defaultValue)) /\
  (forall stored,
      localStorage !! key = Some stored ->
      stored <> [] ->
      JSON_parse stored = Throw SyntaxError ->
      loadFromLocalStorage key defaultValue localStorage = Throw SyntaxError).
Proof.
  unfold loadFromLocalStorage. repeat split.
  - by intros ->.
  - by intros ->.
  - intros stored -> Hne Hparse. by destruct stored.
Qed.

Lemma load_default_or_throw_witness :
  loadFromLocalStorage (js "tableState") defaultState ∅
  = Return (valueOfState defaultState) /\
  loadFromLocalStorage (js "tableState") defaultState
    {[ js "tableState" := jsq "{'page':" ]}
  = Throw SyntaxError.
Proof.
  split.
  - destruct (load_default_or_throw (js "tableState") defaultState ∅)
      as (Habsent & _ & _).
    apply Habsent. reflexivity.
  - destruct (load_default_or_throw (js "tableState") defaultState
                {[ js "tableState" := jsq "{'page':" ]})
      as (_ & _ & Hcorrupt).
    apply (Hcorrupt (jsq "{'page':")).
    + reflexivity.
    + discriminate.
    + reflexivity.
Defined.

(** C1 fails as stated: with the truncated text [{"page":] stored under
    the key, the load throws instead of returning the default. *)
Lemma load_of_corrupt_text_throws :
  let localStorage : gmap jsstring jsstring :=
    {[ js "tableState" := jsq "{'page':" ]} in
  parseValue (S (List.length (jsq "{'page':"))) (jsq "{'page':") = Malformed /\
  loadFromLocalStorage (js "tableState") defaultState localStorage
  = Throw SyntaxError /\
  loadFromLocalStorage (js "tableState") defaultState localStorage
  <> Return (valueOfState defaultState).
Proof.
  intros localStorage. split; [reflexivity|].
  assert (loadFromLocalStorage (js "tableState") defaultState localStorage
          = Throw SyntaxError) as E by reflexivity.
  split; [exact E|]. rewrite E. discriminate.
Qed.

(** C10: a stored non-empty text that parses is returned as parsed, with
    no check that the value is a table state; the default is returned when
    nothing or the empty string is stored, and otherwise plays no part. *)
Theorem load_does_not_validate (key : jsstring) (defaultValue : TableState)
    (localStorage : gmap jsstring jsstring) :
  (forall stored v,
      localStorage !! key = Some stored ->
      stored <> [] ->
      JSON_parse stored = Return v ->
      loadFromLocalStorage key defaultValue localStorage = Return v) /\
  (localStorage !! key = None \/ localStorage !! key = Some [] ->
     loadFromLocalStorage key defaultValue localStorage
     = Return (valueOfState defaultValue)) /\
  (forall stored,
      localStorage !! key = Some stored ->
      stored <> [] ->
      loadFromLocalStorage key defaultValue localStorage = JSON_parse stored).
Proof.
  unfold loadFromLocalStorage. repeat split.
  - intros stored v -> Hne Hparse. by destruct stored.
  - by intros [-> | ->].
  - intros stored -> Hne. by destruct stored.
Qed.

Lemma not_isTableState_number (n : jsnumber) : ~ isTableState (JNum n).
Proof. intros [s Hs]. discriminate Hs. Qed.

Lemma not_isTableState_short (k : jsstring) (v : json) :
  ~ isTableState (JObj [(k, v)]).
Proof. intros [s Hs]. discriminate Hs. Qed.

Lemma not_isTableState_page_string (m : list (jsstring * json)) (k x : jsstring) :
  ~ isTableState (JObj (m ++ [(k, JStr x)])).
Proof.
  intros [s Hs]. unfold valueOfState in Hs. injection Hs as Hs.
  do 5 (destruct m as [|? m]; [try discriminate Hs|injection Hs as ? Hs]).
  destruct m; discriminate Hs.
Qed.

(** Three stored texts that are returned although none is a table state: a
    number, an object with one property, and an object whose [page] is a
    string. *)
Lemma load_does_not_validate_witness :
  let key := js "tableState" in
  let wrong := jsq "{'searchQuery':1,'idFilter':'','sortField':null,'sortOrder':'asc','page':'x'}" in
  (loadFromLocalStorage key defaultState {[ key := jsq "42" ]}
   = Return (JNum (ofInt 42)) /\
   ~ isTableState (JNum (ofInt 42))) /\
  (loadFromLocalStorage key defaultState {[ key := jsq "{'page':3}" ]}
   = Return (JObj [(js "page", JNum (ofInt 3))]) /\
   ~ isTableState (JObj [(js "page", JNum (ofInt 3))])) /\
  (exists v, loadFromLocalStorage key defaultState {[ key := wrong ]} = Return v /\
             ~ isTableState v).
Proof.
  intros key wrong. split; [|split].
  - split; [|apply not_isTableState_number].
    destruct (load_does_not_validate key defaultState {[ key := jsq "42" ]})
      as (Hany & _ & _).
    apply (Hany (jsq "42")); [reflexivity | discriminate | reflexivity].
  - split; [|apply not_isTableState_short].
    destruct (load_does_not_validate key defaultState
                {[ key := jsq "{'page':3}" ]}) as (Hany & _ & _).
    apply (Hany (jsq "{'page':3}")); [reflexivity | discriminate | reflexivity].
  - eexists. split.
    + destruct (load_does_not_validate key defaultState {[ key := wrong ]})
        as (Hany & _ & _).
      apply (Hany wrong); [reflexivity | discriminate | reflexivity].
    + apply (not_isTableState_page_string
               [(js "searchQuery", JNum (ofInt 1)); (js "idFilter", JStr []);
                (js "sortField", JNull); (js "sortOrder", JStr (js "asc"))]).
Defined.

(** ** The visible page *)

Lemma pageCount_spec (fd : list Post) :
  8 * (pageCount fd - 1) < Z.of_nat (List.length fd) <= 8 * pageCount fd.
Proof. apply (ceilDiv_bounds _ 8). lia. Qed.

Lemma slice_nonneg (start stop : Z) (arr : list Post) :
  0 <= start -> 0 <= stop ->
  slice start stop arr
  = take (Z.to_nat (stop - start)) (drop (Z.to_nat start) arr).
Proof.
  intros Hs He. unfold slice, relativeIndex.
  destruct (Z.ltb_spec start 0) as [?|_]; [lia|].
  destruct (Z.ltb_spec stop 0) as [?|_]; [lia|].
  set (len := Z.of_nat (List.length arr)).
  destruct (Z.le_gt_cases len start) as [Hout|Hin].
  - rewrite !drop_ge by lia. by rewrite !take_nil.
  - rewrite (Z.min_l start len) by lia.
    destruct (Z.le_gt_cases stop len) as [Hfit|Hcut].
    + by rewrite Z.min_l by lia.
    + rewrite Z.min_r by lia.
      rewrite !take_ge; [reflexivity | |]; rewrite length_drop; lia.
Qed.



Lemma currentData_page (fd : list Post) (s : TableState) :
  1 <= page s ->
  currentData fd s = take 8 (drop (Z.to_nat (8 * (page s - 1))) fd).
Proof.
  intros Hp. unfold currentData, itemsPerPage.
  rewrite slice_nonneg by lia. f_equal; [lia | f_equal; lia].
Qed.



(** X2: on a page before the last there are eight rows, on the last page
    the one to eight rows that remain, and on a page after the last none. *)
Theorem currentData_length (fd : list Post) (s : TableState) :
  1 <= page s ->
  (page s < pageCount fd -> List.length (currentData fd s) = 8%nat) /\
  (page s = pageCount fd ->
     Z.of_nat (List.length (currentData fd s))
     = Z.of_nat (List.length fd) - 8 * (pageCount fd - 1) /\
     (1 <= List.length (currentData fd s) <= 8)%nat) /\
  (pageCount fd < page s -> currentData fd s = []).
Proof.
  intros Hp. pose proof (pageCount_spec fd) as Hc.
  rewrite (currentData_page fd s Hp).
  repeat split.
  - intros Hlt. rewrite length_take, length_drop. lia.
  - rewrite length_take, length_drop. lia.
  - rewrite length_take, length_drop. lia.
  - rewrite length_take, length_drop. lia.
  - intros Hgt. rewrite drop_ge by lia. apply take_nil.
Qed.

Lemma currentData_length_witness :
  List.length (currentData posts20 (withPage defaultState 2)) = 8%nat /\
  currentData posts20 (withPage defaultState 4) = [].
Proof.
  destruct (currentData_length posts20 (withPage defaultState 2))
    as (Hfull & _ & _); [simpl; lia|].
  destruct (currentData_length posts20 (withPage defaultState 4))
    as (_ & _ & Hpast); [simpl; lia|].
  split; [apply Hfull | apply Hpast]; vm_compute; reflexivity.
Defined.

Lemma chunks_concat (n : nat) :
  forall l : list Post,
    (List.length l <= 8 * n)%nat ->
    concat (List.map (fun i => take 8 (drop (8 * i) l)) (seq 0 n)) = l.
Proof.
  induction n as [|n IH]; intros l Hl.
  - destruct l; [reflexivity | simpl in Hl; lia].
  - cbn [seq List.map concat]. rewrite <- seq_shift, List.map_map.
    rewrite (List.map_ext _ (fun i => take 8 (drop (8 * i) (drop 8 l)))).
    + rewrite IH by (rewrite length_drop; lia).
      change (8 * 0)%nat with 0%nat. rewrite drop_0. apply take_drop.
    + intros i. rewrite drop_drop. do 2 f_equal. lia.
Qed.

(** X3: the pages 1 to [pageCount] one after the other are the filtered
    rows: every row is on one page, in its place. *)
Theorem pages_cover (fd : list Post) (s : TableState) :
  concat (List.map (fun p => currentData fd (withPage s p))
            (pageNumbers (pageCount fd))) = fd.
Proof.
  pose proof (pageCount_spec fd) as Hc.
  unfold pageNumbers. rewrite List.map_map.
  rewrite (List.map_ext _ (fun i => take 8 (drop (8 * i) fd))).
  - apply chunks_concat. lia.
  - intros i. rewrite currentData_page by (simpl; lia).
    simpl. do 2 f_equal. lia.
Qed.

(** ** Pages under the transitions *)

Lemma sortStep_perm (state : TableState) (l : list Post) : sortStep state l ≡ₚ l.
Proof. unfold sortStep. destruct (sortField state); [apply sortList_perm | reflexivity]. Qed.

Lemma handleSort_view_perm (toLowerCase : jsstring -> jsstring)
    (records : list Post) (field : SortField) (s : TableState) :
  computeView toLowerCase records (handleSort field s)
    ≡ₚ computeView toLowerCase records s.
Proof. unfold computeView. rewrite !sortStep_perm. reflexivity. Qed.

(** X4: choosing a sort column rearranges the rows shown and neither adds
    nor removes one, so the page count stays. *)
Theorem handleSort_keeps_rows (toLowerCase : jsstring -> jsstring)
    (records : list Post) (field : SortField) (s : TableState) :
  computeView toLowerCase records (handleSort field s)
    ≡ₚ computeView toLowerCase records s /\
  pageCount (computeView toLowerCase records (handleSort field s))
  = pageCount (computeView toLowerCase records s).
Proof.
  pose proof (handleSort_view_perm toLowerCase records field s) as Hperm.
  split; [exact Hperm|]. unfold pageCount.
  by rewrite (Permutation_length Hperm).
Qed.

(** X5: a page within the pages of the rows shown stays within them under
    every transition: the two pager handlers move it by one inside the
    range, choosing a sort column keeps both the page and the range, and a
    new filter text puts it on page 1. *)
Theorem page_stays_in_range (toLowerCase : jsstring -> jsstring)
    (records : list Post) (s : TableState) :
  let view := computeView toLowerCase records in
  pageInRange (view s) s ->
  pageInRange (view s) (handleNextPage (view s) s) /\
  pageInRange (view s) (handlePrevPage s) /\
  (forall field,
      pageInRange (view (handleSort field s)) (handleSort field s)) /\
  (forall field value,
      pageInRange (view (handleInputChange field value s))
        (handleInputChange field value s)).
Proof.
  intros view [Hlo Hhi]. unfold pageInRange in *. repeat split.
  - unfold handleNextPage. destruct (Z.ltb_spec (page s) (pageCount (view s)));
      simpl; lia.
  - unfold handleNextPage. destruct (Z.ltb_spec (page s) (pageCount (view s)));
      simpl; lia.
  - unfold handlePrevPage. rewrite Z.gtb_ltb.
    destruct (Z.ltb_spec 1 (page s)); simpl; lia.
  - unfold handlePrevPage. rewrite Z.gtb_ltb.
    destruct (Z.ltb_spec 1 (page s)); simpl; lia.
  - assumption.
  - subst view. unfold pageCount.
    rewrite (Permutation_length
               (handleSort_view_perm toLowerCase records field s)).
    assumption.
  - by destruct field.
  - destruct field; simpl; lia.
Qed.

Lemma page_stays_in_range_witness :
  let s := withPage defaultState 3 in
  pageInRange (computeView asciiLower posts20 s)
    (handleNextPage (computeView asciiLower posts20 s) s) /\
  pageInRange (computeView asciiLower posts20 (handleSort FieldTitle s))
    (handleSort FieldTitle s).
Proof.
  intros s.
  destruct (page_stays_in_range asciiLower posts20 s) as (Hn & _ & Hs & _).
  { vm_compute. split; discriminate. }
  split; [exact Hn | exact (Hs FieldTitle)].
Defined.

(** X6: while the page is within range the table body is empty only when
    no row passes the filters. *)
Theorem in_range_page_shows_rows (fd : list Post) (s : TableState) :
  pageInRange fd s -> (currentData fd s = [] <-> fd = []).
Proof.
  intros [Hlo Hhi]. pose proof (pageCount_spec fd) as Hc.
  rewrite (currentData_page fd s Hlo).
  split.
  - intros Hnil. apply (f_equal (@List.length Post)) in Hnil.
    rewrite length_take, length_drop in Hnil. cbn [List.length] in Hnil.
    destruct fd as [|x fd']; [reflexivity | exfalso].
    assert (0 < List.length (x :: fd'))%nat as Hpos by (simpl; lia).
    revert Hnil Hc Hhi Hpos. generalize (x :: fd'). intros l. lia.
  - intros ->. by rewrite drop_nil.
Qed.

Lemma in_range_page_shows_rows_witness :
  currentData posts20 (withPage defaultState 3) <> [].
Proof.
  intros Hnil.
  apply (in_range_page_shows_rows posts20 (withPage defaultState 3)) in Hnil.
  - discriminate Hnil.
  - vm_compute. split; discriminate.
Defined.

(** X7: a disabled pager button does nothing when clicked; for a page of at
    least 1 the Previous button is disabled exactly when its handler does
    nothing, and for a page up to the page count so is the Next button.
    With no row to show and the page at 1 the Next button is enabled and
    its handler does nothing. *)
Theorem pager_buttons (fd : list Post) (s : TableState) :
  (prevDisabled s = true -> handlePrevPage s = s) /\
  (nextDisabled fd s = true -> handleNextPage fd s = s) /\
  (1 <= page s -> handlePrevPage s = s -> prevDisabled s = true) /\
  (page s <= pageCount fd -> handleNextPage fd s = s ->
     nextDisabled fd s = true) /\
  (fd = [] -> page s = 1 ->
     nextDisabled fd s = false /\ handleNextPage fd s = s).
Proof.
  unfold prevDisabled, nextDisabled, handlePrevPage, handleNextPage.
  rewrite Z.gtb_ltb. split; [|split; [|split; [|split]]].
  - intros H%Z.eqb_eq. destruct (Z.ltb_spec 1 (page s)); [lia | reflexivity].
  - intros H%Z.eqb_eq.
    destruct (Z.ltb_spec (page s) (pageCount fd)); [lia | reflexivity].
  - intros Hp Hsame. apply Z.eqb_eq.
    destruct (Z.ltb_spec 1 (page s)) as [Hlt|]; [|lia].
    apply (f_equal page) in Hsame. simpl in Hsame. lia.
  - intros Hp Hsame. apply Z.eqb_eq.
    destruct (Z.ltb_spec (page s) (pageCount fd)) as [Hlt|]; [|lia].
    apply (f_equal page) in Hsame. simpl in Hsame. lia.
  - intros -> Hp. rewrite Hp. split; reflexivity.
Qed.

Lemma pager_buttons_witness :
  handlePrevPage defaultState = defaultState /\
  nextDisabled posts20 (withPage defaultState 3) = true /\
  nextDisabled [] defaultState = false.
Proof.
  destruct (pager_buttons posts20 defaultState) as (Hprev & _).
  destruct (pager_buttons posts20 (withPage defaultState 3))
    as (_ & _ & _ & Hnext & _).
  destruct (pager_buttons [] defaultState) as (_ & _ & _ & _ & Hempty).
  split; [apply Hprev; reflexivity|].
  split; [apply Hnext; [vm_compute; discriminate | reflexivity]|].
  apply Hempty; reflexivity.
Defined.

(** ** Sorting *)

Lemma str_ltb_irrefl (a : jsstring) : str_ltb a a = false.
Proof.
  induction a as [|x a IH]; [reflexivity|]. cbn [str_ltb].
  by rewrite N.ltb_irrefl.
Qed.

Lemma str_ltb_trans (a b c : jsstring) :
  str_ltb a b = true -> str_ltb b c = true -> str_ltb a c = true.
Proof.
  revert b c. induction a as [|x a IH]; intros [|y b] [|z c];
    cbn [str_ltb]; try discriminate; try reflexivity.
  destruct (N.ltb_spec x y), (N.ltb_spec y x), (N.ltb_spec y z),
    (N.ltb_spec z y), (N.ltb_spec x z), (N.ltb_spec z x);
    try discriminate; try reflexivity; try lia.
  apply IH.
Qed.

Lemma str_ltb_total (a b : jsstring) :
  str_ltb a b = false -> str_ltb b a = false -> a = b.
Proof.
  revert b. induction a as [|x a IH]; intros [|y b];
    cbn [str_ltb]; try discriminate; try reflexivity.
  destruct (N.ltb_spec x y), (N.ltb_spec y x); try discriminate; try lia.
  intros Hab Hba. assert (x = y) as -> by lia. f_equal. by apply IH.
Qed.

Lemma str_ltb_asym (a b : jsstring) :
  str_ltb a b = true -> str_ltb b a = false.
Proof.
  intros Hab. destruct (str_ltb b a) eqn:Hba; [|reflexivity].
  pose proof (str_ltb_trans _ _ _ Hab Hba) as Haa.
  by rewrite str_ltb_irrefl in Haa.
Qed.

Lemma str_eqb_eq (a b : jsstring) : str_eqb a b = true <-> a = b.
Proof.
  revert b. induction a as [|x a IH]; intros [|y b]; cbn [str_eqb];
    try (split; (discriminate || reflexivity)).
  rewrite andb_true_iff, N.eqb_eq, IH. split.
  - by intros [-> ->].
  - by intros [= -> ->].
Qed.

Lemma compareFn_inOrder (field : SortField) (order : SortOrder) (a b : Post) :
  compareFn field order a b <= 0 <-> inOrder field order a b.
Proof.
  unfold compareFn, inOrder. destruct field, order; cbn [isAsc].
  - rewrite Z.gtb_ltb.
    destruct (Z.ltb_spec (id a) (id b)), (Z.ltb_spec (id b) (id a)); lia.
  - rewrite Z.gtb_ltb.
    destruct (Z.ltb_spec (id a) (id b)), (Z.ltb_spec (id b) (id a)); lia.
  - destruct (str_ltb (title a) (title b)) eqn:Hab.
    + rewrite (str_ltb_asym _ _ Hab). split; [reflexivity | lia].
    + destruct (str_ltb (title b) (title a)); split; (lia || discriminate || reflexivity).
  - destruct (str_ltb (title a) (title b)) eqn:Hab.
    + split; (lia || discriminate).
    + destruct (str_ltb (title b) (title a)); split; (lia || discriminate || reflexivity).
Qed.

Lemma inOrder_total (field : SortField) (order : SortOrder) (a b : Post) :
  inOrder field order a b \/ inOrder field order b a.
Proof.
  unfold inOrder. destruct field, order; try lia.
  - destruct (str_ltb (title b) (title a)) eqn:H; [right | by left].
    by apply str_ltb_asym.
  - destruct (str_ltb (title a) (title b)) eqn:H; [right | by left].
    by apply str_ltb_asym.
Qed.

Lemma str_leb_trans (a b c : jsstring) :
  str_ltb b a = false -> str_ltb c b = false -> str_ltb c a = false.
Proof.
  intros Hab Hbc. destruct (str_ltb c a) eqn:Hca; [|reflexivity].
  destruct (str_ltb a b) eqn:Hlt.
  - by rewrite (str_ltb_trans _ _ _ Hca Hlt) in Hbc.
  - rewrite (str_ltb_total a b Hlt Hab) in Hca. congruence.
Qed.

Lemma inOrder_trans (field : SortField) (order : SortOrder) (a b c : Post) :
  inOrder field order a b -> inOrder field order b c -> inOrder field order a c.
Proof.
  unfold inOrder. destruct field, order; try lia.
  - apply str_leb_trans.
  - intros Hab Hbc. by apply (str_leb_trans _ _ _ Hbc Hab).
Qed.

Lemma insertSorted_sorted (field : SortField) (order : SortOrder)
    (x : Post) (l : list Post) :
  StronglySorted (inOrder field order) l ->
  StronglySorted (inOrder field order)
    (insertSorted (compareFn field order) x l).
Proof.
  induction 1 as [|y l Hl IH Hy]; cbn [insertSorted].
  - repeat constructor.
  - destruct (Z.gtb_spec (compareFn field order x y) 0) as [Hgt|Hle].
    + constructor; [exact IH|].
      rewrite insertSorted_perm. constructor; [|exact Hy].
      destruct (inOrder_total field order y x) as [H|H]; [exact H|].
      apply compareFn_inOrder in H. lia.
    + apply compareFn_inOrder in Hle.
      constructor; [by constructor|]. constructor; [exact Hle|].
      eapply Forall_impl; [exact Hy|].
      intros z Hz. by apply (inOrder_trans _ _ x y z).
Qed.

Lemma sortList_strongly_sorted (field : SortField) (order : SortOrder)
    (l : list Post) :
  StronglySorted (inOrder field order) (sortList (compareFn field order) l).
Proof.
  induction l as [|x l IH]; [constructor|].
  by apply insertSorted_sorted.
Qed.

(** X8: the sort hands back the same rows in the order asked for: by id
    upwards or downwards, or by title in the order of their code units,
    every row standing before all that follow it. *)
Theorem sortList_sorted (field : SortField) (order : SortOrder) (l : list Post) :
  StronglySorted (inOrder field order) (sortList (compareFn field order) l) /\
  sortList (compareFn field order) l ≡ₚ l.
Proof.
  split; [apply sortList_strongly_sorted | apply sortList_perm].
Qed.

Lemma filter_insertSorted (p : Post -> bool) (cmp : Post -> Post -> Z)
    (x : Post) (l : list Post) :
  (forall y, p x = true -> p y = true -> cmp x y <= 0) ->
  List.filter p (insertSorted cmp x l) = List.filter p (x :: l).
Proof.
  intros Hsame. induction l as [|y l IH]; [reflexivity|].
  cbn [insertSorted]. destruct (Z.gtb_spec (cmp x y) 0) as [Hgt|Hle];
    [|reflexivity].
  cbn [List.filter] in *. rewrite IH.
  destruct (p x) eqn:Hx; [|reflexivity].
  destruct (p y) eqn:Hy; [|reflexivity].
  specialize (Hsame y eq_refl Hy). lia.
Qed.

Lemma sameKey_compareFn (field : SortField) (order : SortOrder)
    (other x y : Post) :
  sameKey field other x = true -> sameKey field other y = true ->
  compareFn field order x y <= 0.
Proof.
  unfold sameKey, compareFn. destruct field.
  - intros Hx%Z.eqb_eq Hy%Z.eqb_eq. rewrite Hx, Hy, Z.gtb_ltb, Z.ltb_irrefl.
    lia.
  - intros Hx%str_eqb_eq Hy%str_eqb_eq. rewrite Hx, Hy, str_ltb_irrefl. lia.
Qed.

(** X9: the sort is stable: rows with the same id, or the same title, keep
    the order they had. *)
Theorem sortList_stable (field : SortField) (order : SortOrder)
    (other : Post) (l : list Post) :
  List.filter (sameKey field other) (sortList (compareFn field order) l)
  = List.filter (sameKey field other) l.
Proof.
  induction l as [|x l IH]; [reflexivity|].
  cbn [sortList foldr]. fold (sortList (compareFn field order) l).
  rewrite filter_insertSorted.
  - cbn [List.filter]. by rewrite IH.
  - intros y. apply sameKey_compareFn.
Qed.

Lemma insertSorted_head (field : SortField) (order : SortOrder)
    (x : Post) (l : list Post) :
  Forall (inOrder field order x) l ->
  insertSorted (compareFn field order) x l = x :: l.
Proof.
  intros Hall. destruct l as [|y l]; [reflexivity|]. cbn [insertSorted].
  apply Forall_cons in Hall as [Hy%compareFn_inOrder _].
  destruct (Z.gtb_spec (compareFn field order x y) 0); [lia | reflexivity].
Qed.

(** Rows already in order are left as they are. *)
Lemma sortList_of_sorted (field : SortField) (order : SortOrder) (l : list Post) :
  StronglySorted (inOrder field order) l ->
  sortList (compareFn field order) l = l.
Proof.
  induction 1 as [|x l Hl IH Hx]; [reflexivity|].
  cbn [sortList foldr]. fold (sortList (compareFn field order) l).
  rewrite IH. by apply insertSorted_head.
Qed.

Lemma sortList_idem (field : SortField) (order : SortOrder) (l : list Post) :
  sortList (compareFn field order) (sortList (compareFn field order) l)
  = sortList (compareFn field order) l.
Proof. apply sortList_of_sorted, sortList_strongly_sorted. Qed.

(** ** The rows shown *)

Lemma filter_filter (p q : Post -> bool) (l : list Post) :
  List.filter q (List.filter p l) = List.filter (fun x => p x && q x) l.
Proof.
  induction l as [|x l IH]; [reflexivity|]. cbn [List.filter].
  destruct (p x); cbn [List.filter andb]; [|exact IH].
  destruct (q x); by rewrite IH.
Qed.

Lemma filter_all (p : Post -> bool) (l : list Post) :
  (forall x, p x = true) -> List.filter p l = l.
Proof.
  intros Hp. induction l as [|x l IH]; [reflexivity|].
  cbn [List.filter]. by rewrite Hp, IH.
Qed.

Lemma computeView_passes (toLowerCase : jsstring -> jsstring)
    (records : list Post) (state : TableState) :
  computeView toLowerCase records state
  = sortStep state (List.filter (passes toLowerCase state) records).
Proof.
  unfold computeView, idStep, textStep, passes. f_equal.
  destruct (isEmpty (searchQuery state));
    destruct (isNaN (minIdOf (idFilter state)));
    destruct (isNaN (maxIdOf (idFilter state))); cbn [negb andb orb];
    first
      [ symmetry; apply filter_all; intros x; reflexivity
      | rewrite ?filter_filter; apply List.filter_ext; intros x;
        cbn [orb andb]; rewrite ?andb_true_r; reflexivity ].
Qed.

Lemma filteredDataAfter_perm (toLowerCase : jsstring -> jsstring)
    (h : store) (data : ref) (state : TableState) :
  (data < List.length h)%nat ->
  filteredDataAfter toLowerCase h data state
    ≡ₚ List.filter (passes toLowerCase state) (cell h data).
Proof.
  intros Hd.
  rewrite filteredDataAfter_computeView, computeView_passes by assumption.
  apply sortStep_perm.
Qed.

(** X10: the rows handed to [setFilteredData] are the rows of [data] that
    pass the filters, each as often as it is in [data]: none is added and
    none that passes is dropped. *)
Theorem filteredData_rows (toLowerCase : jsstring -> jsstring)
    (h : store) (data : ref) (state : TableState) :
  (data < List.length h)%nat ->
  filteredDataAfter toLowerCase h data state
    ≡ₚ List.filter (passes toLowerCase state) (cell h data) /\
  (forall item,
      In item (filteredDataAfter toLowerCase h data state)
      <-> In item (cell h data) /\ passes toLowerCase state item = true).
Proof.
  intros Hd.
  pose proof (filteredDataAfter_perm toLowerCase h data state Hd) as Hperm.
  split; [exact Hperm|]. intros item. rewrite <- filter_In.
  split; apply Permutation_in; [exact Hperm | symmetry; exact Hperm].
Qed.

Lemma filteredData_rows_witness :
  let state := {| searchQuery := js "T"; idFilter := js "19-30";
                  sortField := Some FieldId; sortOrder := Desc; page := 1 |} in
  In {| id := 20; title := js "t"; body := js "b" |}
    (filteredDataAfter asciiLower [posts20] 0%nat state).
Proof.
  intros state.
  apply (filteredData_rows asciiLower [posts20] 0%nat state); [simpl; lia|].
  split; [|reflexivity].
  vm_compute. do 19 right. left. reflexivity.
Defined.

Lemma idParts_clamped (idf : jsstring) (i : nat) (v : Z) :
  idParts idf !! i = Some (Some v) -> 1 <= v <= 100.
Proof.
  unfold idParts. rewrite lookup_map.
  destruct (split 45 idf !! i) as [p|]; [|discriminate]. simpl.
  destruct (parseInt10 p); [|discriminate]. simpl.
  intros [= <-]. lia.
Qed.

(** X11: once the id filter has its two numbers, every row shown has an id
    from 1 to 100, whatever numbers were typed. *)
Theorem id_filter_shows_1_to_100 (toLowerCase : jsstring -> jsstring)
    (h : store) (data : ref) (state : TableState) (item : Post) :
  (data < List.length h)%nat ->
  isNaN (minIdOf (idFilter state)) = false ->
  isNaN (maxIdOf (idFilter state)) = false ->
  In item (filteredDataAfter toLowerCase h data state) ->
  1 <= id item <= 100.
Proof.
  intros Hd Hmin Hmax Hin.
  apply (Permutation_in _ (filteredDataAfter_perm toLowerCase h data state Hd))
    in Hin.
  apply filter_In in Hin as [_ Hp].
  unfold passes in Hp. rewrite Hmin, Hmax in Hp. cbn [orb] in Hp.
  apply andb_true_iff in Hp as [_ Hr].
  unfold minIdOf, maxIdOf in *.
  destruct (idParts (idFilter state) !! 0%nat) as [[lo|]|] eqn:Hlo;
    try discriminate.
  destruct (idParts (idFilter state) !! 1%nat) as [[hi|]|] eqn:Hhi;
    try discriminate.
  apply idParts_clamped in Hlo, Hhi.
  rewrite inIdRange_numbers in Hr.
  apply andb_true_iff in Hr as [H1%Z.leb_le H2%Z.leb_le]. lia.
Qed.

Lemma id_filter_shows_1_to_100_witness :
  let state := {| searchQuery := []; idFilter := js "101-200"; sortField := None;
                  sortOrder := Asc; page := 1 |} in
  List.map id (filteredDataAfter asciiLower [posts_99_to_103] 0%nat state) = [100] /\
  Forall (fun item => 1 <= id item <= 100)
    (filteredDataAfter asciiLower [posts_99_to_103] 0%nat state).
Proof.
  intros state. split; [reflexivity|].
  apply List.Forall_forall. intros item.
  apply (id_filter_shows_1_to_100 asciiLower [posts_99_to_103] 0%nat state);
    [simpl; lia | reflexivity | reflexivity].
Defined.

(** ** The store under the effect *)

Lemma filtering_false (state : TableState) :
  filtering state = false ->
  searchQuery state = [] /\
  isNaN (minIdOf (idFilter state)) || isNaN (maxIdOf (idFilter state)) = true.
Proof.
  unfold filtering. destruct (searchQuery state); [|discriminate].
  destruct (isNaN (minIdOf (idFilter state))),
    (isNaN (maxIdOf (idFilter state))); simpl; intros H;
    (discriminate || by split).
Qed.

Lemma filtering_true (state : TableState) :
  filtering state = true ->
  searchQuery state <> [] \/
    (isNaN (minIdOf (idFilter state)) = false /\
     isNaN (maxIdOf (idFilter state)) = false).
Proof.
  unfold filtering. destruct (searchQuery state); [|by left].
  destruct (isNaN (minIdOf (idFilter state))),
    (isNaN (maxIdOf (idFilter state))); simpl; intros H;
    (discriminate || by right).
Qed.

Section EffectOnStore.

Variable toLowerCase : jsstring -> jsstring.

Lemma storeAfter_grows (h : store) (data : ref) (state : TableState) :
  (List.length h <= List.length (storeAfter toLowerCase h data state)
   <= List.length h + 2)%nat.
Proof.
  unfold storeAfter. run_effect.
  destruct (negb (isEmpty (searchQuery state)));
    destruct (negb (isNaN (minIdOf (idFilter state)))
              && negb (isNaN (maxIdOf (idFilter state))));
    destruct (sortField state); cbn [fst snd];
    rewrite ?length_insert, ?length_app; cbn [List.length]; lia.
Qed.

(** X12: the effect writes to no array but [data], allocates at most two,
    and hands over [data] itself exactly when no filter is in force;
    otherwise it hands over an array that did not exist before. *)
Theorem effect_frame (h : store) (data : ref) (state : TableState) :
  (data < List.length h)%nat ->
  (forall r, (r < List.length h)%nat -> r <> data ->
             cell (storeAfter toLowerCase h data state) r = cell h r) /\
  (List.length h <= List.length (storeAfter toLowerCase h data state)
   <= List.length h + 2)%nat /\
  (filtering state = false ->
     filteredRefAfter toLowerCase h data state = data) /\
  (filtering state = true ->
     (List.length h <= filteredRefAfter toLowerCase h data state
      < List.length (storeAfter toLowerCase h data state))%nat).
Proof.
  intros Hd. unfold storeAfter, filteredRefAfter, filtering. run_effect.
  destruct (negb (isEmpty (searchQuery state)));
    destruct (negb (isNaN (minIdOf (idFilter state)))
              && negb (isNaN (maxIdOf (idFilter state))));
    destruct (sortField state); cbn [fst snd orb];
    (split; [intros r Hr Hne; cells; reflexivity|]);
    rewrite ?length_insert, ?length_app; cbn [List.length];
    (split; [lia|]); split; intros H; (discriminate H || reflexivity || lia).
Qed.

Lemma dataAfter_storeAfter (h : store) (data : ref) (state : TableState) :
  dataAfter toLowerCase h data state
  = cell (storeAfter toLowerCase h data state) data.
Proof.
  unfold dataAfter, storeAfter.
  by destruct (filterEffect toLowerCase data state h).
Qed.

Lemma dataAfter_idle (h : store) (data : ref) (state : TableState) :
  (data < List.length h)%nat ->
  filtering state = false -> sortField state = None ->
  dataAfter toLowerCase h data state = cell h data.
Proof.
  intros Hd [Hq Hn]%filtering_false Hs. unfold dataAfter. run_effect.
  rewrite Hq, Hs. simpl.
  destruct (isNaN (minIdOf (idFilter state)));
    destruct (isNaN (maxIdOf (idFilter state)));
    simpl in *; try discriminate; reflexivity.
Qed.

(** X13: a second run of the effect on the same state changes nothing
    more: [filteredData] gets the same rows again and [data] keeps the rows
    the first run left in it. *)
Theorem effect_settles (h : store) (data : ref) (state : TableState) :
  (data < List.length h)%nat ->
  let h1 := storeAfter toLowerCase h data state in
  filteredDataAfter toLowerCase h1 data state
  = filteredDataAfter toLowerCase h data state /\
  dataAfter toLowerCase h1 data state = dataAfter toLowerCase h data state.
Proof.
  intros Hd h1.
  assert (data < List.length h1)%nat as Hd1.
  { pose proof (storeAfter_grows h data state) as Hlen. subst h1. lia. }
  assert (cell h1 data = dataAfter toLowerCase h data state) as Hcell
    by (symmetry; apply dataAfter_storeAfter).
  rewrite !filteredDataAfter_computeView by assumption.
  destruct (filtering state) eqn:Hf.
  - pose proof (filtering_true state Hf) as Hf'.
    rewrite (dataAfter_filtering toLowerCase h1) by assumption.
    rewrite Hcell, (dataAfter_filtering toLowerCase h) by assumption.
    by split.
  - destruct (filtering_false state Hf) as [Hq Hn].
    destruct (sortField state) as [field|] eqn:Hs.
    + rewrite (dataAfter_sorting toLowerCase h1 data state field)
        by assumption.
      rewrite Hcell.
      rewrite (dataAfter_sorting toLowerCase h data state field)
        by assumption.
      rewrite sortList_idem. split; [|reflexivity].
      rewrite !computeView_passes. unfold sortStep. rewrite Hs.
      rewrite !filter_all.
      * apply sortList_idem.
      * intros x. unfold passes. rewrite Hq, Hn. reflexivity.
      * intros x. unfold passes. rewrite Hq, Hn. reflexivity.
    + rewrite (dataAfter_idle h1) by assumption.
      rewrite Hcell, (dataAfter_idle h) by assumption.
      by split.
Qed.

End EffectOnStore.

Lemma effect_frame_witness :
  let state := {| searchQuery := js "t"; idFilter := js "3-4"; sortField := Some FieldId;
                  sortOrder := Desc; page := 1 |} in
  cell (storeAfter asciiLower [posts_99_to_103; posts20] 1%nat state) 0%nat
  = posts_99_to_103 /\
  filteredRefAfter asciiLower [posts_99_to_103; posts20] 1%nat state = 3%nat /\
  filteredRefAfter asciiLower [posts_99_to_103; posts20] 1%nat defaultState = 1%nat.
Proof.
  intros state.
  destruct (effect_frame asciiLower [posts_99_to_103; posts20] 1%nat state)
    as (Hframe & _); [simpl; lia|].
  destruct (effect_frame asciiLower [posts_99_to_103; posts20] 1%nat defaultState)
    as (_ & _ & Halias & _); [simpl; lia|].
  split; [apply Hframe; simpl; lia|].
  split; [reflexivity | apply Halias; reflexivity].
Defined.

Lemma effect_settles_witness :
  let state := {| searchQuery := []; idFilter := []; sortField := Some FieldId;
                  sortOrder := Desc; page := 1 |} in
  let h1 := storeAfter asciiLower [posts20] 0%nat state in
  filteredDataAfter asciiLower h1 0%nat state
  = filteredDataAfter asciiLower [posts20] 0%nat state /\
  dataAfter asciiLower h1 0%nat state = dataAfter asciiLower [posts20] 0%nat state.
Proof.
  intros state h1.
  apply (effect_settles asciiLower [posts20] 0%nat state). simpl; lia.
Defined.

(** ** The id filter input *)

Lemma keepDigitsAndDashes_kept (value : jsstring) :
  Forall (fun c => isDigit c || N.eqb c 45 = true) (keepDigitsAndDashes value).
Proof.
  unfold keepDigitsAndDashes. apply List.Forall_forall.
  intros c Hc. by apply filter_In in Hc as [_ Hc].
Qed.

Lemma keepDigitsAndDashes_fixed (value : jsstring) :
  Forall (fun c => isDigit c || N.eqb c 45 = true) value ->
  keepDigitsAndDashes value = value.
Proof.
  unfold keepDigitsAndDashes. induction 1 as [|c l Hc _ IH]; [reflexivity|].
  cbn [List.filter]. by rewrite Hc, IH.
Qed.

Lemma split_pieces (value : jsstring) :
  Forall (fun c => isDigit c || N.eqb c 45 = true) value ->
  Forall (Forall (fun c => isDigit c = true)) (split 45 value).
Proof.
  induction 1 as [|c l Hc _ IH]; cbn [split]; [repeat constructor|].
  destruct (N.eqb_spec c 45) as [->|Hne].
  - constructor; [constructor | exact IH].
  - rewrite orb_false_r in Hc.
    destruct (split 45 l) as [|p ps]; [repeat constructor; exact Hc|].
    apply Forall_cons in IH as [Hp Hps].
    constructor; [by constructor | exact Hps].
Qed.

Lemma takeDigits_all (p : jsstring) :
  Forall (fun c => isDigit c = true) p -> takeDigits p = (p, []).
Proof.
  induction 1 as [|c l Hc _ IH]; [reflexivity|].
  cbn [takeDigits]. by rewrite Hc, IH.
Qed.

Lemma isDigit_not_space (c : N) :
  isDigit c = true -> isStrWhiteSpaceChar c = false.
Proof.
  intros Hc%isDigit_range. unfold isStrWhiteSpaceChar.
  repeat match goal with
         | |- context [N.eqb c ?k] => destruct (N.eqb_spec c k); [lia|]
         end.
  destruct (N.leb_spec 8192 c); [lia | reflexivity].
Qed.

Lemma parseInt10_digits (p : jsstring) :
  Forall (fun c => isDigit c = true) p ->
  parseInt10 p = if isEmpty p then None else Some (digitsValue p).
Proof.
  intros Hp. unfold parseInt10. pose proof (takeDigits_all p Hp) as Ht.
  destruct Hp as [|c l Hc Hl]; [reflexivity|].
  cbn [trimStart isEmpty]. rewrite (isDigit_not_space c Hc).
  apply isDigit_range in Hc.
  destruct (N.eqb_spec c 45); [lia|]. destruct (N.eqb_spec c 43); [lia|].
  rewrite Ht. cbn [fst]. f_equal. lia.
Qed.

(** X14: the id filter input keeps the digits and dashes typed and drops
    every other character; of the text it leaves, a piece between dashes is
    read as the number its digits write, and an empty piece as no number;
    so the filter comes into force exactly when the first two pieces are
    both non-empty. *)
Theorem typed_id_filter (value : jsstring) :
  let text := keepDigitsAndDashes value in
  Forall (fun c => isDigit c || N.eqb c 45 = true) text /\
  keepDigitsAndDashes text = text /\
  (forall i p, split 45 text !! i = Some p ->
               parseInt10 p = if isEmpty p then None else Some (digitsValue p)) /\
  (isNaN (minIdOf text) = false /\ isNaN (maxIdOf text) = false
   <-> exists p1 p2 more,
         split 45 text = p1 :: p2 :: more /\ p1 <> [] /\ p2 <> []).
Proof.
  intros text. pose proof (keepDigitsAndDashes_kept value) as Hkept.
  fold text in Hkept. pose proof (split_pieces text Hkept) as Hpieces.
  assert (forall (i : nat) p, split 45 text !! i = Some p ->
            parseInt10 p = if isEmpty p then None else Some (digitsValue p))
    as Hparse.
  { intros i p Hi. apply parseInt10_digits.
    rewrite List.Forall_forall in Hpieces. apply Hpieces.
    apply list_elem_of_In, list_elem_of_lookup. by exists i. }
  split; [exact Hkept|]. split; [by apply keepDigitsAndDashes_fixed|].
  split; [exact Hparse|].
  unfold minIdOf, maxIdOf, idParts. rewrite !lookup_map.
  destruct (split 45 text) as [|p1 [|p2 more]] eqn:Hs.
  - split; [intros [H _]; discriminate H | intros (? & ? & ? & H & _); discriminate H].
  - split; [intros [_ H]; discriminate H | intros (? & ? & ? & H & _); discriminate H].
  - cbn [lookup list_lookup fmap option_fmap option_map].
    rewrite (Hparse 0%nat p1 eq_refl), (Hparse 1%nat p2 eq_refl).
    split.
    + intros [H1 H2]. exists p1, p2, more.
      destruct p1; [discriminate H1|]. destruct p2; [discriminate H2|].
      by repeat split.
    + intros (q1 & q2 & more' & [= <- <- <-] & Hq1 & Hq2).
      destruct p1; [congruence|]. destruct p2; [congruence|]. by split.
Qed.

Lemma typed_id_filter_witness :
  parseInt10 (js "17") = Some 17 /\
  isNaN (minIdOf (keepDigitsAndDashes (js "a3 - 17x"))) = false /\
  isNaN (maxIdOf (keepDigitsAndDashes (js "-5"))) = false /\
  isNaN (minIdOf (keepDigitsAndDashes (js "-5"))) = true.
Proof.
  destruct (typed_id_filter (js "a3 - 17x")) as (_ & _ & Hp & Hforce).
  destruct Hforce as [_ Hforce].
  destruct Hforce as [Hmin _].
  { exists (js "3"), (js "17"), []. repeat split; discriminate || reflexivity. }
  split; [exact (Hp 1%nat (js "17") eq_refl)|].
  split; [exact Hmin|]. split; reflexivity.
Defined.

(** ** What the sync effect writes *)

Lemma numberToString_inj (z1 z2 : Z) :
  numberToString z1 = numberToString z2 -> z1 = z2.
Proof.
  intros Heq.
  pose proof (readNumber_numberToString z1 125 [] endsNumber_brace) as H1.
  pose proof (readNumber_numberToString z2 125 [] endsNumber_brace) as H2.
  rewrite Heq, H2 in H1. by injection H1.
Qed.

Lemma JSON_stringify_inj (s1 s2 : TableState) :
  JSON_stringify s1 = JSON_stringify s2 -> s1 = s2.
Proof.
  intros Heq. apply valueOfState_inj.
  pose proof (JSON_parse_stringify s1) as H1.
  rewrite Heq, JSON_parse_stringify in H1. congruence.
Qed.

(** X15: each of the two things the sync effect writes tells the state
    apart from every other: states leaving the same search parameters, or
    the same text under ["tableState"], are the same state. *)
Theorem syncEffect_determines_state (s1 s2 : TableState)
    (ls1 ls2 : gmap jsstring jsstring) :
  (snd (syncEffect s1 ls1) = snd (syncEffect s2 ls2) -> s1 = s2) /\
  (fst (syncEffect s1 ls1) !! js "tableState"
   = fst (syncEffect s2 ls2) !! js "tableState" -> s1 = s2).
Proof.
  unfold syncEffect, saveToLocalStorage. cbn [fst snd]. split.
  - destruct s1 as [q1 f1 sf1 so1 p1], s2 as [q2 f2 sf2 so2 p2].
    unfold searchParamsOf. cbn [searchQuery idFilter sortField sortOrder page].
    intros [= -> -> Hsf Hso Hp]. apply numberToString_inj in Hp as ->.
    f_equal.
    + destruct sf1 as [[]|], sf2 as [[]|]; try reflexivity;
        vm_compute in Hsf; discriminate Hsf.
    + destruct so1, so2; try reflexivity; vm_compute in Hso; discriminate Hso.
  - rewrite !lookup_insert_eq. intros Heq. apply JSON_stringify_inj.
    congruence.
Qed.

Lemma syncEffect_determines_state_witness :
  handlePrevPage (handleNextPage posts20 defaultState) = defaultState.
Proof.
  destruct (syncEffect_determines_state
              (handlePrevPage (handleNextPage posts20 defaultState))
              defaultState ∅ ∅) as [Hparams _].
  apply Hparams. reflexivity.
Defined.

(** ** The search text *)

Lemma startsWith_spec (s pre : jsstring) :
  startsWith s pre = true <-> exists post, s = pre ++ post.
Proof.
  revert s. induction pre as [|p pre IH]; intros s; cbn [startsWith].
  - split; [by exists s | reflexivity].
  - destruct s as [|c s].
    + split; [discriminate | intros [post H]; discriminate H].
    + rewrite andb_true_iff, N.eqb_eq, IH. split.
      * intros [-> [post ->]]. by exists post.
      * intros [post [= -> ->]]. split; [reflexivity | by exists post].
Qed.

Lemma includes_spec (s sub : jsstring) :
  includes s sub = true <-> exists pre post, s = pre ++ sub ++ post.
Proof.
  induction s as [|c s IH]; cbn [includes].
  - rewrite orb_false_r, startsWith_spec. split.
    + intros [post H]. by exists [], post.
    + intros (pre & post & H). destruct pre; [by exists post | discriminate H].
  - rewrite orb_true_iff, startsWith_spec, IH. split.
    + intros [[post H] | (pre & post & ->)].
      * by exists [], post.
      * by exists (c :: pre), post.
    + intros (pre & post & H). destruct pre as [|c' pre].
      * left. by exists post.
      * right. injection H as -> ->. by exists pre, post.
Qed.

(** X16: a row matches the search text when the text, lower-cased, is a
    run of consecutive characters of its lower-cased title or of its
    lower-cased body; upper and lower case are thus told apart only as far
    as [toLowerCase] does. *)
Theorem matchesQuery_substring (toLowerCase : jsstring -> jsstring)
    (query : jsstring) (item : Post) :
  matchesQuery toLowerCase query item = true
  <-> (exists pre post,
          toLowerCase (title item) = pre ++ toLowerCase query ++ post) \/
      (exists pre post,
          toLowerCase (body item) = pre ++ toLowerCase query ++ post).
Proof.
  unfold matchesQuery. by rewrite orb_true_iff, !includes_spec.
Qed.

Lemma matchesQuery_substring_witness :
  matchesQuery asciiLower (js "LPH")
    {| id := 1; title := js "Alpha"; body := js "x" |} = true.
Proof.
  apply (matchesQuery_substring asciiLower (js "LPH")
           {| id := 1; title := js "Alpha"; body := js "x" |}).
  left. exists (js "a"), (js "a"). reflexivity.
Defined.

(** ** Fetching *)




(** X18: the message of the error view names the failure: a response that
    is not ok gives ["HTTP Error: "], its status and its status text,
    whatever its body; an error named [TypeError] gives the network
    message whatever its own message; any other error gives its own
    message, or the fallback message when it has none. *)
Theorem fetchData_messages (c : Component) (h : store) :
  (forall status statusText body,
      error (fst (fetchData (FetchResponds false status statusText body) c h))
      = Some (js "HTTP Error: " ++ numberToString status ++ js " " ++ statusText)) /\
  (forall message,
      error (fst (fetchData
                    (FetchRejects {| errName := js "TypeError"; errMessage := message |})
                    c h))
      = Some networkMessage) /\
  (forall err,
      errName err <> js "TypeError" ->
      error (fst (fetchData (FetchRejects err) c h))
      = Some (if isEmpty (errMessage err) then fallbackMessage else errMessage err)
      /\
      forall status statusText,
        error (fst (fetchData (FetchResponds true status statusText (BodyRejects err)) c h))
        = Some (if isEmpty (errMessage err) then fallbackMessage else errMessage err)).
Proof.
  split; [|split].
  - intros status statusText body. reflexivity.
  - intros message. reflexivity.
  - intros err Hname.
    assert (catchMessage err
            = if isEmpty (errMessage err) then fallbackMessage else errMessage err)
      as Hmsg.
    { unfold catchMessage.
      destruct (str_eqb (errName err) (js "TypeError")) eqn:Heq; [|reflexivity].
      by apply str_eqb_eq in Heq. }
    split; [|intros status statusText]; unfold fetchData; cbn; by rewrite Hmsg.
Qed.

Lemma fetchData_messages_witness :
  let c := {| data := 0%nat; filteredData := 0%nat; loading := true; error := None |} in
  error (fst (fetchData
                (FetchResponds true 200 (js "OK")
                   (BodyRejects {| errName := js "SyntaxError"; errMessage := [] |}))
                c [[]]))
  = Some fallbackMessage.
Proof.
  intros c.
  destruct (fetchData_messages c [[]]) as (_ & _ & Hother).
  destruct (Hother {| errName := js "SyntaxError"; errMessage := [] |})
    as [_ Hbody]; [discriminate|].
  exact (Hbody 200 (js "OK")).
Defined.

(** ** From the fetch to the table *)

(** X19: after a fetch that gave the rows, the effect run on the new [data]
    leaves in [filteredData] the filtered and sorted fetched rows; with the
    default state these are the fetched rows in the order fetched. *)
Theorem fetched_rows_reach_the_table (toLowerCase : jsstring -> jsstring)
    (status : Z) (statusText : jsstring) (rows : list Post)
    (c : Component) (h : store) (state : TableState) :
  let settled := fetchData (FetchResponds true status statusText (BodyRows rows)) c h in
  filteredDataAfter toLowerCase (snd settled) (data (fst settled)) state
  = computeView toLowerCase rows state /\
  filteredDataAfter toLowerCase (snd settled) (data (fst settled)) defaultState
  = rows.
Proof.
  intros settled. subst settled. unfold fetchData. cbn [tryFetch negb].
  unfold newArray, mbind, mret, M_bind, M_ret. cbn [fst snd data].
  rewrite !filteredDataAfter_computeView
    by (rewrite length_app; simpl; lia).
  rewrite cell_alloc. by split.
Qed.

(** X20: after a click on a column header the rows shown are in order by
    that column, in ascending order unless the rows were already sorted by
    it in ascending order. *)
Theorem header_click_sorts (toLowerCase : jsstring -> jsstring)
    (records : list Post) (field : SortField) (s : TableState) :
  StronglySorted (inOrder field (sortOrder (handleSort field s)))
    (computeView toLowerCase records (handleSort field s)) /\
  (sortField s <> Some field \/ sortOrder s = Desc ->
   StronglySorted (inOrder field Asc)
     (computeView toLowerCase records (handleSort field s))).
Proof.
  assert (StronglySorted (inOrder field (sortOrder (handleSort field s)))
            (computeView toLowerCase records (handleSort field s))) as Hsorted.
  { unfold computeView, sortStep. cbn [handleSort sortField].
    apply sortList_strongly_sorted. }
  split; [exact Hsorted|]. intros Hfirst.
  assert (sortOrder (handleSort field s) = Asc) as Hasc.
  { cbn [handleSort sortOrder].
    destruct Hfirst as [Hne| ->]; [|by rewrite andb_false_r].
    destruct (sortField s) as [f|]; [|reflexivity]. cbn [sameField].
    destruct f, field; cbn; congruence. }
  by rewrite Hasc in Hsorted.
Qed.

Lemma header_click_sorts_witness :
  StronglySorted (inOrder FieldTitle Asc)
    (computeView asciiLower posts20 (handleSort FieldTitle defaultState)).
Proof.
  apply (header_click_sorts asciiLower posts20 FieldTitle defaultState).
  left. discriminate.
Defined.
